(** * Spiegel: the presentation layer's contract with the capture pipeline

    Shallow embedding of the React/TypeScript sources of the Spiegel
    clipboard manager:

    - [src/components/ClipToolbar.tsx] and
      [src/components/CategoryCombobox.tsx]: the capture-session toolbar;
    - [src/App.tsx]: the item list and its refresh on backend events;
    - [src/GridVirtualizer.tsx]: search and category filtering;
    - [src/SettingsDialog.tsx]: hotkey formatting and testing;
    - [src/lib/utils.ts]: [formatDateTime].

    Components are modelled as explicit state machines: the [useState]
    cells of a component are the fields of a record, an event handler is a
    function on that record, and calls to the Tauri backend ([invoke]) are
    appended to a log. *)

From Stdlib Require Import NArith Ascii Floats.
From stdpp Require Import base decidable option list strings gmap.

Set Default Proof Using "Type".

(** ** ECMAScript strings

    A JavaScript string is a finite sequence of UTF-16 code units. *)
Module JS.

Definition jsstring : Type := list N.

(** Code units of an ASCII literal of the source. *)
Fixpoint lit (s : string) : jsstring :=
  match s with
  | EmptyString => []
  | String a s' => N_of_ascii a :: lit s'
  end.

Global Arguments lit : simpl never.

(** ECMAScript [WhiteSpace] and [LineTerminator] code points: what
    [String.prototype.trim] strips and what [\s] matches. *)
Definition isWhiteSpace (c : N) : bool :=
  ((9 <=? c) && (c <=? 13) || (c =? 32) || (c =? 160) || (c =? 5760)
   || (8192 <=? c) && (c <=? 8202) || (c =? 8232) || (c =? 8233)
   || (c =? 8239) || (c =? 8287) || (c =? 12288) || (c =? 65279))%N.

Fixpoint trimStart (s : jsstring) : jsstring :=
  match s with
  | c :: s' => if isWhiteSpace c then trimStart s' else s
  | [] => []
  end.

Definition trimEnd (s : jsstring) : jsstring :=
  reverse (trimStart (reverse s)).

Definition trim (s : jsstring) : jsstring := trimEnd (trimStart s).

(** [ToBoolean] on a string: only the empty string is falsy. *)
Definition truthy (s : jsstring) : bool :=
  match s with [] => false | _ :: _ => true end.

(** [ToBoolean] on [string | undefined]. *)
Definition truthy_opt (o : option jsstring) : bool :=
  match o with Some s => truthy s | None => false end.

(** [a || b] where [a : string] and [b : string | undefined]. *)
Definition or_opt (a : jsstring) (b : option jsstring) : option jsstring :=
  if truthy a then Some a else b.

(** [a || b] where [a : string | undefined] and [b : string]. *)
Definition or_default (a : option jsstring) (b : jsstring) : jsstring :=
  match a with
  | Some s => if truthy s then s else b
  | None => b
  end.

(** [s.startsWith(p)]. *)
Fixpoint startsWith (s p : jsstring) : bool :=
  match p, s with
  | [], _ => true
  | _ :: _, [] => false
  | b :: p', a :: s' => (a =? b)%N && startsWith s' p'
  end.

(** [s.includes(p)]. *)
Fixpoint includes (s p : jsstring) : bool :=
  startsWith s p ||
  match s with
  | [] => false
  | _ :: s' => includes s' p
  end.

(** [l.join(sep)]. *)
Fixpoint join (sep : jsstring) (l : list jsstring) : jsstring :=
  match l with
  | [] => []
  | [s] => s
  | s :: l' => s ++ sep ++ join sep l'
  end.

(** [s.replace(/[-_]/g, " ")]. *)
Definition replace_dash_underscore (s : jsstring) : jsstring :=
  (fun c => if ((c =? 45) || (c =? 95))%N then 32%N else c) <$> s.

(** [s.replace(/\s+/g, " ")]: every maximal run of white space becomes one
    space. [in_run] tells that the previous code unit was white space. *)
Fixpoint replace_spaces_from (in_run : bool) (s : jsstring) : jsstring :=
  match s with
  | [] => []
  | c :: s' =>
      if isWhiteSpace c
      then (if in_run then replace_spaces_from true s'
            else 32%N :: replace_spaces_from true s')
      else c :: replace_spaces_from false s'
  end.

Definition replace_spaces (s : jsstring) : jsstring :=
  replace_spaces_from false s.

(** The engine's case mappings restricted to the ASCII letters; they
    instantiate [toLowerCase] and [toUpperCase] when the model is run on
    concrete ASCII inputs. *)
Definition ascii_toLowerCase (s : jsstring) : jsstring :=
  (fun c => if ((65 <=? c) && (c <=? 90))%N then (c + 32)%N else c) <$> s.

Definition ascii_toUpperCase (s : jsstring) : jsstring :=
  (fun c => if ((97 <=? c) && (c <=? 122))%N then (c - 32)%N else c) <$> s.

End JS.

(** ** The capture-session toolbar

    [ClipToolbar] (src/components/ClipToolbar.tsx) together with its child
    [CategoryInput] (src/components/CategoryCombobox.tsx).

    React semantics the model relies on:
    - the state updates of one handler are batched and followed by one
      render;
    - after a render is committed, the effects whose dependencies differ
      from those of the previous render run in declaration order, reading
      the values of that render; their updates are batched into the next
      render;
    - all effects have settled before the next event is delivered, and an
      event reaches an element only if the last committed render contains
      that element. *)
Module Toolbar.
Import JS.

(** [interface ClipContext]. The [number] fields of an image are carried
    as naturals; no handler inspects them. *)
Record ImageClip := { data : list N; width : N; height : N }.
Record Clip := { Text : option jsstring; Image : option ImageClip }.
Record ClipContext :=
  { suggested_category : option jsstring; clip : Clip }.

(** [categories] of src/CategoryFilters.tsx. *)
Definition categories : list jsstring :=
  lit <$> [ "code_snippet"; "technical_advice"; "documentation"; "url";
            "communication"; "notes"; "reference"; "creative"; "business";
            "quotes"; "academic"; "errors"; "other" ]%string.

(** Backend commands the toolbar invokes. [submit_clip] carries the
    [userCategory] argument and the clip that [JSON.stringify] serialises
    ([None] when [clipData] is still [null]). *)
Inductive Invocation :=
  | submit_clip (userCategory : jsstring) (clipJson : option Clip)
  | close_toolbar_window.

Record Session := mkSession {
  (* useState cells of ClipToolbar *)
  clipData : option ClipContext;
  userCategory : jsstring;
  isLoadingClipData : bool;
  isSaving : bool;
  (* useState cells of CategoryInput *)
  inputValue : jsstring;
  isInitialized : bool;
  showInput : bool;
  (* document.activeElement === inputRef.current *)
  focused : bool;
  (* dependencies of the last committed render:
     [value] for the second effect of CategoryInput,
     [aiSuggestion, inputValue] for the third *)
  dep_value : jsstring;
  dep_aiSuggestion : option jsstring;
  dep_inputValue : jsstring;
  (* the backend: commands invoked so far (oldest first), saves not yet
     answered, and the messages shown by [alert] *)
  invoked : list Invocation;
  in_flight : nat;
  alerts : list jsstring }.

Definition set_clipData v s := mkSession v (userCategory s) (isLoadingClipData s) (isSaving s) (inputValue s) (isInitialized s) (showInput s) (focused s) (dep_value s) (dep_aiSuggestion s) (dep_inputValue s) (invoked s) (in_flight s) (alerts s).
Definition set_userCategory v s := mkSession (clipData s) v (isLoadingClipData s) (isSaving s) (inputValue s) (isInitialized s) (showInput s) (focused s) (dep_value s) (dep_aiSuggestion s) (dep_inputValue s) (invoked s) (in_flight s) (alerts s).
Definition set_isLoadingClipData v s := mkSession (clipData s) (userCategory s) v (isSaving s) (inputValue s) (isInitialized s) (showInput s) (focused s) (dep_value s) (dep_aiSuggestion s) (dep_inputValue s) (invoked s) (in_flight s) (alerts s).
Definition set_isSaving v s := mkSession (clipData s) (userCategory s) (isLoadingClipData s) v (inputValue s) (isInitialized s) (showInput s) (focused s) (dep_value s) (dep_aiSuggestion s) (dep_inputValue s) (invoked s) (in_flight s) (alerts s).
Definition set_inputValue v s := mkSession (clipData s) (userCategory s) (isLoadingClipData s) (isSaving s) v (isInitialized s) (showInput s) (focused s) (dep_value s) (dep_aiSuggestion s) (dep_inputValue s) (invoked s) (in_flight s) (alerts s).
Definition set_isInitialized v s := mkSession (clipData s) (userCategory s) (isLoadingClipData s) (isSaving s) (inputValue s) v (showInput s) (focused s) (dep_value s) (dep_aiSuggestion s) (dep_inputValue s) (invoked s) (in_flight s) (alerts s).
Definition set_showInput v s := mkSession (clipData s) (userCategory s) (isLoadingClipData s) (isSaving s) (inputValue s) (isInitialized s) v (focused s) (dep_value s) (dep_aiSuggestion s) (dep_inputValue s) (invoked s) (in_flight s) (alerts s).
Definition set_focused v s := mkSession (clipData s) (userCategory s) (isLoadingClipData s) (isSaving s) (inputValue s) (isInitialized s) (showInput s) v (dep_value s) (dep_aiSuggestion s) (dep_inputValue s) (invoked s) (in_flight s) (alerts s).
Definition set_deps v a i s := mkSession (clipData s) (userCategory s) (isLoadingClipData s) (isSaving s) (inputValue s) (isInitialized s) (showInput s) (focused s) v a i (invoked s) (in_flight s) (alerts s).
Definition set_invoked v s := mkSession (clipData s) (userCategory s) (isLoadingClipData s) (isSaving s) (inputValue s) (isInitialized s) (showInput s) (focused s) (dep_value s) (dep_aiSuggestion s) (dep_inputValue s) v (in_flight s) (alerts s).
Definition set_in_flight v s := mkSession (clipData s) (userCategory s) (isLoadingClipData s) (isSaving s) (inputValue s) (isInitialized s) (showInput s) (focused s) (dep_value s) (dep_aiSuggestion s) (dep_inputValue s) (invoked s) v (alerts s).
Definition set_alerts v s := mkSession (clipData s) (userCategory s) (isLoadingClipData s) (isSaving s) (inputValue s) (isInitialized s) (showInput s) (focused s) (dep_value s) (dep_aiSuggestion s) (dep_inputValue s) (invoked s) (in_flight s) v.

(** [clipData?.suggested_category], also the [aiSuggestion] prop. *)
Definition aiSuggestion (s : Session) : option jsstring :=
  clipData s ≫= suggested_category.

(** The first render: [useState(null)], [useState("")], [useState(true)],
    [useState(false)]; in the child [useState(value)], [useState(false)],
    [useState(false)]. *)
Definition initial : Session :=
  {| clipData := None; userCategory := []; isLoadingClipData := true;
     isSaving := false;
     inputValue := []; isInitialized := false; showInput := false;
     focused := false;
     dep_value := []; dep_aiSuggestion := None; dep_inputValue := [];
     invoked := []; in_flight := 0; alerts := [] |}.

(** [await invoke(cmd, ...)]: the call is issued now. *)
Definition invoke (c : Invocation) (s : Session) : Session :=
  set_invoked (invoked s ++ [c]) s.

(** *** ClipToolbar *)

(** The ["clip-data"] listener. It is registered by an effect with the
    dependency list [[]], hence created once, in the first render: the
    [userCategory] its body reads is the binding of that render, which
    the parameter [captured_userCategory] stands for. *)
Definition clip_data_listener (captured_userCategory : jsstring)
    (payload : ClipContext) (s : Session) : Session :=
  let s := set_clipData (Some payload) s in
  let s := set_isLoadingClipData false s in
  match suggested_category payload with
  | Some sugg =>
      if truthy sugg && negb (truthy captured_userCategory)
      then set_userCategory sugg s
      else s
  | None => s
  end.

Definition on_clip_data : ClipContext → Session → Session :=
  clip_data_listener (userCategory initial).

(** The [userCategory] argument of [submit_clip]:
    [userCategory.trim() || clipData?.suggested_category || "Other"]. *)
Definition submitted_category (s : Session) : jsstring :=
  or_default (or_opt (trim (userCategory s)) (aiSuggestion s)) (lit "Other").

(** [handleSave] up to its [await]. *)
Definition handleSave (s : Session) : Session :=
  let s' := set_isSaving true s in
  set_in_flight (S (in_flight s))
    (invoke (submit_clip (submitted_category s) (clip <$> clipData s)) s').

(** [handleSave] after its [await]: [None] when the command resolved,
    [Some error] when it rejected. *)
Definition handleSave_settled (r : option jsstring) (s : Session) : Session :=
  let s :=
    match r with
    | Some error =>
        set_alerts (alerts s ++ [lit "Failed to save clip: " ++ error]) s
    | None => s
    end in
  set_in_flight (pred (in_flight s)) (set_isSaving false s).

(** [handleCancel]; a rejection is only written to the console. *)
Definition handleCancel (s : Session) : Session :=
  invoke close_toolbar_window s.

Definition ClipToolbar_handleKeyDown (key : jsstring) (shiftKey : bool)
    (s : Session) : Session :=
  if bool_decide (key = lit "Enter") && negb shiftKey then handleSave s
  else if bool_decide (key = lit "Escape") then handleCancel s
  else s.

(** [disabled] of the save and of the cancel button. *)
Definition save_disabled (s : Session) : bool :=
  isSaving s || negb (truthy_opt (aiSuggestion s)).

Definition cancel_disabled (s : Session) : bool := isSaving s.

Section Engine.
(** [String.prototype.toLowerCase] of the engine. *)
Context (toLowerCase : jsstring → jsstring).

(** *** CategoryInput *)

Definition handleInputChange (newValue : jsstring) (s : Session) : Session :=
  set_userCategory newValue (set_inputValue newValue s).

(** [categories.find(...)] of the Tab completion. *)
Definition matchingCategory (iv : jsstring) : option jsstring :=
  find (λ cat, startsWith (toLowerCase cat) (toLowerCase iv)
               && negb (bool_decide (toLowerCase cat = toLowerCase iv)))
       categories.

(** [aiSuggestion && inputValue === aiSuggestion]. *)
Definition shows_suggestion (s : Session) : bool :=
  truthy_opt (aiSuggestion s)
  && bool_decide (Some (inputValue s) = aiSuggestion s).

Definition handleInputBlur (s : Session) : Session :=
  if shows_suggestion s then set_showInput false s else s.

(** [handleBadgeClick]; the focus it schedules with [setTimeout] arrives
    as a later focus event. *)
Definition handleBadgeClick (s : Session) : Session :=
  set_showInput true s.

(** [handleKeyDown] of the input. [inputRef.current?.blur()] delivers the
    blur event before it returns. *)
Definition CategoryInput_handleKeyDown (key : jsstring) (shiftKey : bool)
    (s : Session) : Session :=
  let completion :=
    if bool_decide (key = lit "Tab") && truthy (inputValue s)
    then matchingCategory (inputValue s) else None in
  match completion with
  | Some m => set_userCategory m (set_inputValue m s)
  | None =>
      if bool_decide (key = lit "Escape") && shows_suggestion s
      then set_focused false (handleInputBlur (set_showInput false s))
      else ClipToolbar_handleKeyDown key shiftKey s
  end.

(** One commit: the render of [s] is committed and the three effects of
    [CategoryInput] run against it, in declaration order; all of them read
    the values of [s], their updates accumulate in [n] (the last write to a
    cell wins). An input that is not rendered is not the active element.

    The second and the third effect run when their dependencies differ
    from those of the previous commit. The first effect lists every value
    its guard reads ([aiSuggestion], [isInitialized], [value]) and sets
    [isInitialized] when the guard holds, so the guard can only hold in a
    render whose dependencies have changed: testing the guard alone is the
    same as testing the dependencies first. *)
Definition commit (s : Session) : Session :=
  let ai := aiSuggestion s in
  let value := userCategory s in
  let iv := inputValue s in
  let foc := focused s && showInput s in
  let n := set_focused foc s in
  (* if (aiSuggestion && !isInitialized && !value) *)
  let n :=
    match ai with
    | Some sugg =>
        if truthy sugg && negb (isInitialized s) && negb (truthy value)
        then set_isInitialized true
               (set_userCategory sugg (set_inputValue sugg n))
        else n
    | None => n
    end in
  (* [value]: if (value !== inputValue && activeElement !== inputRef.current) *)
  let n :=
    if negb (bool_decide (value = dep_value s))
       && negb (bool_decide (value = iv)) && negb foc
    then set_inputValue value n else n in
  (* [aiSuggestion, inputValue] *)
  let n :=
    if bool_decide (ai = dep_aiSuggestion s)
       && bool_decide (iv = dep_inputValue s)
    then n
    else if negb (truthy_opt ai) && negb (truthy iv) then set_showInput false n
    else if negb (bool_decide (Some iv = ai)) then set_showInput true n
    else set_showInput false n in
  set_deps value ai iv n.

(** Effects run until no state changes; four commits always reach that
    point ([settle_quiescent] below). *)
Definition settle (s : Session) : Session :=
  commit (commit (commit (commit s))).

(** *** Events *)

Inductive Event :=
  | clip_data (payload : ClipContext)   (* the backend emits "clip-data" *)
  | input_change (newValue : jsstring)  (* onChange of the input *)
  | input_keydown (key : jsstring) (shiftKey : bool)
  | input_focus
  | input_blur
  | badge_click
  | save_click
  | cancel_click
  | save_settled (r : option jsstring). (* submit_clip resolved / rejected *)

(** Whether the page of the last committed render can deliver the event. *)
Definition enabled (e : Event) (s : Session) : bool :=
  match e with
  | clip_data _ => true
  | input_change _ | input_keydown _ _ | input_blur =>
      showInput s && focused s
  | input_focus => showInput s
  | badge_click => negb (showInput s) && truthy_opt (aiSuggestion s)
  | save_click => negb (save_disabled s)
  | cancel_click => negb (cancel_disabled s)
  | save_settled _ => bool_decide (0 < in_flight s)
  end.

Definition handle (e : Event) (s : Session) : Session :=
  match e with
  | clip_data payload => on_clip_data payload s
  | input_change v => handleInputChange v s
  | input_keydown key shiftKey => CategoryInput_handleKeyDown key shiftKey s
  | input_focus => set_focused true s
  | input_blur => set_focused false (handleInputBlur s)
  | badge_click => handleBadgeClick s
  | save_click => handleSave s
  | cancel_click => handleCancel s
  | save_settled r => handleSave_settled r s
  end.

Definition step (s : Session) (e : Event) : option Session :=
  if enabled e s then Some (settle (handle e s)) else None.

Fixpoint run (s : Session) (es : list Event) : option Session :=
  match es with
  | [] => Some s
  | e :: es' => step s e ≫= λ s', run s' es'
  end.

(** States the toolbar can be in between two events. *)
Definition reachable (s : Session) : Prop :=
  ∃ es, run initial es = Some s.

End Engine.

(** The [submit_clip] calls of a log. *)
Definition is_save (c : Invocation) : bool :=
  match c with submit_clip _ _ => true | close_toolbar_window => false end.

Definition saves (l : list Invocation) : list Invocation :=
  filter is_save l.

(** *** Predicates on sessions used by the specifications *)

(** The guard of the first effect of [CategoryInput]. *)
Definition first_effect_fires (s : Session) : bool :=
  match aiSuggestion s with
  | Some sugg =>
      truthy sugg && negb (isInitialized s) && negb (truthy (userCategory s))
  | None => false
  end.

(** The dependencies recorded at the last commit are the current ones: no
    effect is waiting to run. *)
Definition quiescent (s : Session) : Prop :=
  dep_value s = userCategory s
  ∧ dep_aiSuggestion s = aiSuggestion s
  ∧ dep_inputValue s = inputValue s.

(** With no suggestion and an empty input the text field is not rendered,
    unless the third effect has yet to run. *)
Definition badge_when_empty (s : Session) : Prop :=
  dep_aiSuggestion s = aiSuggestion s → dep_inputValue s = inputValue s →
  truthy_opt (aiSuggestion s) = false → inputValue s = [] →
  showInput s = false.

(** The parent's [userCategory] is empty only if the child's [inputValue]
    is. *)
Definition empty_in_step (s : Session) : Prop :=
  userCategory s = [] → inputValue s = [].

(** The category a save has to submit, in the words of the specification:
    the typed value trimmed when that is not empty, else the suggestion
    when there is one (an empty suggestion counts as none, as everywhere
    in the component), else ["Other"]. *)
Definition specified_category (typed : jsstring)
    (suggestion : option jsstring) : jsstring :=
  if bool_decide (trim typed ≠ []) then trim typed
  else match suggestion with
       | Some sugg => if bool_decide (sugg ≠ []) then sugg else lit "Other"
       | None => lit "Other"
       end.

(** The events that ask for a save (the button and the Enter accelerator)
    and for a cancel (the button and Escape). *)
Definition is_save_request (e : Event) : bool :=
  match e with
  | save_click => true
  | input_keydown key shiftKey =>
      bool_decide (key = lit "Enter") && negb shiftKey
  | _ => false
  end.

Definition is_cancel_request (e : Event) : bool :=
  match e with
  | cancel_click => true
  | input_keydown key _ => bool_decide (key = lit "Escape")
  | _ => false
  end.

Definition session_invariant (s : Session) : Prop :=
  quiescent s ∧ badge_when_empty s ∧ empty_in_step s.

(** *** Sample sessions *)

Definition example_clip : Clip :=
  {| Text := Some (lit "https://example.com"); Image := None |}.

Definition example_payload : ClipContext :=
  {| suggested_category := Some (lit "url"); clip := example_clip |}.

(** The session after the suggestion ["url"] has arrived. *)
Definition suggested : Session :=
  Eval vm_compute in
    default initial (run ascii_toLowerCase initial [clip_data example_payload]).

(** The session in which the user has replaced the suggestion by
    ["work"] in the focused input. *)
Definition editing : Session :=
  Eval vm_compute in
    default initial
      (run ascii_toLowerCase initial
         [clip_data example_payload; badge_click; input_focus;
          input_change (lit "work")]).

End Toolbar.

(** ** The main window: item list and refresh (src/App.tsx) *)
Module App.
Import JS.

(** [interface ClipItem]. *)
Record TextClip := { plain : jsstring }.
Record ImageClip := { data : jsstring; width : N; height : N }.
Record Clip := { Text : option TextClip; Image : option ImageClip }.
Record ClipItem := {
  id : jsstring;
  clip : Clip;
  created_at : jsstring;
  category : option jsstring;
  summary : option jsstring;
  tags : option (list jsstring) }.

Inductive Invocation := get_items.

(** The cells [getItems] touches, the toasts shown and the backend calls
    issued (oldest first). [isLoadingItems] starts out [undefined]. *)
Record State := mkState {
  items : list ClipItem;
  isLoadingItems : option bool;
  toasts : list jsstring;
  invoked : list Invocation }.

Definition initial : State :=
  {| items := []; isLoadingItems := None; toasts := []; invoked := [] |}.

(** [getItems] up to its [await]. *)
Definition getItems (s : State) : State :=
  {| items := items s; isLoadingItems := Some true; toasts := toasts s;
     invoked := invoked s ++ [get_items] |}.

(** [getItems] after its [await]: the command resolved with a list or
    rejected with an error. *)
Definition getItems_settled (r : list ClipItem + jsstring) (s : State) : State :=
  match r with
  | inl fetched =>
      {| items := fetched; isLoadingItems := Some false;
         toasts := toasts s; invoked := invoked s |}
  | inr _ =>
      {| items := items s; isLoadingItems := Some false;
         toasts := toasts s ++ [lit "Unable to fetch items"];
         invoked := invoked s |}
  end.

Section Events.
(** What the backend attaches to ["clip-saved"] and ["clip-deleted"]. *)
Context {Payload : Type}.

Inductive Event :=
  | clip_saved (event : Payload)
  | clip_deleted (event : Payload)
  | get_items_settled (r : list ClipItem + jsstring).

(** The two listeners are [() => { getItems(); }]. *)
Definition handle (e : Event) (s : State) : State :=
  match e with
  | clip_saved _ => getItems s
  | clip_deleted _ => getItems s
  | get_items_settled r => getItems_settled r s
  end.

(** The window after its mount effect, which calls [getItems()] and
    registers the two listeners. *)
Definition mounted : State := getItems initial.

Definition run (s : State) (es : list Event) : State :=
  foldl (λ s e, handle e s) s es.

(** Bookkeeping on a sequence of events: which of them announce a change
    of the store, and the lists the backend returned. *)
Definition is_change (e : Event) : bool :=
  match e with
  | clip_saved _ | clip_deleted _ => true
  | get_items_settled _ => false
  end.

Definition fetched (e : Event) : option (list ClipItem) :=
  match e with
  | get_items_settled (inl l) => Some l
  | _ => None
  end.

End Events.
Global Arguments Event : clear implicits.

End App.

(** ** Search and category filter (src/GridVirtualizer.tsx) *)
Module GridVirtualizer.
Import JS App.

Section Engine.
Context (toLowerCase : jsstring → jsstring).

(** [searchableFields] of one item. *)
Definition searchableFields (item : ClipItem) : list jsstring :=
  [ or_default (plain <$> Text (clip item)) [];
    or_default (summary item) [];
    or_default (category item) [] ]
  ++ default [] (tags item).

(** The callback of the search [filter]; [query] is already lowered and
    trimmed. *)
Definition matches_search (query : jsstring) (item : ClipItem) : bool :=
  let fields := searchableFields item in
  let searchableText :=
    trim (replace_spaces (replace_dash_underscore
            (toLowerCase (join (lit " ") fields)))) in
  let normalizedQuery :=
    trim (replace_spaces (replace_dash_underscore query)) in
  let originalText := toLowerCase (join (lit " ") fields) in
  includes originalText query
  || includes searchableText normalizedQuery
  || includes searchableText query.

(** The callback of the category [filter]:
    [item.category && selectedCategories.includes(item.category)]. *)
Definition matches_category (selectedCategories : list jsstring)
    (item : ClipItem) : bool :=
  match category item with
  | Some c => truthy c && bool_decide (c ∈ selectedCategories)
  | None => false
  end.

(** The [useMemo] body. *)
Definition displayedItems (items : list ClipItem) (searchQuery : jsstring)
    (selectedCategories : list jsstring) : list ClipItem :=
  let filtered := items in
  let filtered :=
    if truthy (trim searchQuery)
    then let query := trim (toLowerCase searchQuery) in
         filter (matches_search query) filtered
    else filtered in
  let filtered :=
    if bool_decide (0 < length selectedCategories)
    then filter (matches_category selectedCategories) filtered
    else filtered in
  filtered.

End Engine.

(** Sample items. *)
Definition example_items : list ClipItem :=
  [ {| id := lit "1"; clip := {| Text := Some {| plain := lit "hello" |};
                                 Image := None |};
       created_at := lit "2024-01-01 00:00:00";
       category := Some (lit "notes"); summary := None; tags := None |};
    {| id := lit "2"; clip := {| Text := None; Image := None |};
       created_at := lit "2024-01-02 00:00:00";
       category := None; summary := None; tags := Some [lit "x"] |} ].

End GridVirtualizer.

(** ** The settings dialog (src/SettingsDialog.tsx) *)
Module SettingsDialog.
Import JS.

(** *** [formatHotkey] *)
Section Engine.
Context (toLowerCase toUpperCase : jsstring → jsstring).

(** The named keys accepted besides single characters. *)
Definition namedKeys : list jsstring :=
  lit <$> [ "F1"; "F2"; "F3"; "F4"; "F5"; "F6"; "F7"; "F8"; "F9"; "F10";
            "F11"; "F12"; "Space"; "Enter"; "Escape"; "Tab"; "Backspace";
            "Delete"; "Insert"; "Home"; "End"; "PageUp"; "PageDown";
            "ArrowUp"; "ArrowDown"; "ArrowLeft"; "ArrowRight" ]%string.

(** [if (!modifiers.includes(tok)) modifiers.push(tok)]. *)
Definition push_once (tok : jsstring) (modifiers : list jsstring) :
    list jsstring :=
  if bool_decide (tok ∈ modifiers) then modifiers else modifiers ++ [tok].

(** The body of [recordedKeys.forEach], on the pair of arrays
    [(modifiers, regularKeys)]. *)
Definition visit (acc : list jsstring * list jsstring) (key : jsstring) :
    list jsstring * list jsstring :=
  let lower := toLowerCase key in
  if bool_decide (lower = lit "control") || bool_decide (lower = lit "ctrl")
  then (push_once (lit "CommandOrControl") acc.1, acc.2)
  else if bool_decide (lower = lit "meta") || bool_decide (lower = lit "cmd")
          || bool_decide (lower = lit "command")
  then (push_once (lit "CommandOrControl") acc.1, acc.2)
  else if bool_decide (lower = lit "shift")
  then (push_once (lit "Shift") acc.1, acc.2)
  else if bool_decide (lower = lit "alt") || bool_decide (lower = lit "option")
  then (push_once (lit "Alt") acc.1, acc.2)
  else if bool_decide (length key = 1) || bool_decide (key ∈ namedKeys)
  then (acc.1, acc.2 ++ [toUpperCase key])
  else acc.

(** The two arrays after the loop. A [Set<string>] is visited in insertion
    order: [recordedKeys] lists its elements in that order. *)
Definition collect (recordedKeys : list jsstring) :
    list jsstring * list jsstring :=
  foldl visit ([], []) recordedKeys.

Definition formatHotkey (recordedKeys : list jsstring) : jsstring :=
  let acc := collect recordedKeys in
  join (lit "+") (acc.1 ++ acc.2).

(** The classification of keys the specification speaks of: the token a
    modifier key stands for, and the keys kept as regular keys. *)
Definition modifier_token (key : jsstring) : option jsstring :=
  let lower := toLowerCase key in
  if bool_decide (lower ∈ lit <$> ["control"; "ctrl"; "meta"; "cmd";
                                   "command"]%string)
  then Some (lit "CommandOrControl")
  else if bool_decide (lower = lit "shift") then Some (lit "Shift")
  else if bool_decide (lower ∈ lit <$> ["alt"; "option"]%string)
  then Some (lit "Alt")
  else None.

Definition is_regular_key (key : jsstring) : bool :=
  bool_decide (modifier_token key = None)
  && (bool_decide (length key = 1) || bool_decide (key ∈ namedKeys)).

End Engine.

(** *** [testHotkey]

    The body is sequential code with [try]/[catch]/[finally] around an
    awaited backend call; it is written in a state monad with exceptions,
    the awaited call being answered by [backend]. *)
Inductive TestResult := success | error.

Inductive Invocation := test_global_hotkey (hotkey : jsstring).

Inductive TimerAction := clear_testResult.  (* () => setTestResult(null) *)

Record State := mkState {
  globalShortcut : jsstring;
  isTesting : bool;
  testResult : option TestResult;
  toasts : list jsstring;             (* errorToast titles *)
  console : list jsstring;            (* console.error lines *)
  timers : list (N * TimerAction);    (* setTimeout: delay in ms, callback *)
  invoked : list Invocation }.

Inductive Outcome (A : Type) :=
  | Returned (a : A)
  | Thrown (err : jsstring).
Global Arguments Returned {A} a.
Global Arguments Thrown {A} err.

Definition M (A : Type) : Type := State → Outcome A * State.

#[global] Instance M_ret : MRet M := λ A a s, (Returned a, s).

#[global] Instance M_bind : MBind M := λ A B k m s,
  match m s with
  | (Returned a, s') => k a s'
  | (Thrown e, s') => (Thrown e, s')
  end.

(** [try { body } catch (error) { handler error }]. *)
Definition try_catch {A} (body : M A) (handler : jsstring → M A) : M A :=
  λ s, match body s with
       | (Returned a, s') => (Returned a, s')
       | (Thrown e, s') => handler e s'
       end.

(** [try { body } finally { cleanup }]: [cleanup] runs on both exits and the
    outcome of [body] is kept, unless [cleanup] itself throws. *)
Definition try_finally {A} (body : M A) (cleanup : M unit) : M A :=
  λ s, match body s with
       | (o, s') =>
           match cleanup s' with
           | (Returned _, s'') => (o, s'')
           | (Thrown e, s'') => (Thrown e, s'')
           end
       end.

Definition modify (f : State → State) : M unit := λ s, (Returned tt, f s).

Definition setIsTesting (v : bool) : M unit :=
  modify (λ s, mkState (globalShortcut s) v (testResult s) (toasts s)
                       (console s) (timers s) (invoked s)).
Definition setTestResult (v : option TestResult) : M unit :=
  modify (λ s, mkState (globalShortcut s) (isTesting s) v (toasts s)
                       (console s) (timers s) (invoked s)).
Definition errorToast (title : jsstring) : M unit :=
  modify (λ s, mkState (globalShortcut s) (isTesting s) (testResult s)
                       (toasts s ++ [title]) (console s) (timers s)
                       (invoked s)).
Definition console_error (line : jsstring) : M unit :=
  modify (λ s, mkState (globalShortcut s) (isTesting s) (testResult s)
                       (toasts s) (console s ++ [line]) (timers s)
                       (invoked s)).
Definition setTimeout (cb : TimerAction) (ms : N) : M unit :=
  modify (λ s, mkState (globalShortcut s) (isTesting s) (testResult s)
                       (toasts s) (console s) (timers s ++ [(ms, cb)])
                       (invoked s)).

Section Backend.
(** The answer of the backend to [test_global_hotkey]: [None] when the
    promise resolves, [Some err] when it rejects with [err]. *)
Context (backend : jsstring → option jsstring).

Definition invoke (c : Invocation) : M unit :=
  λ s, let s' := mkState (globalShortcut s) (isTesting s) (testResult s)
                         (toasts s) (console s) (timers s)
                         (invoked s ++ [c]) in
       match c with
       | test_global_hotkey hotkey =>
           match backend hotkey with
           | None => (Returned tt, s')
           | Some e => (Thrown e, s')
           end
       end.

Definition testHotkey : M unit :=
  λ s,
    let globalShortcut := globalShortcut s in
    (if negb (truthy (trim globalShortcut))
     then errorToast (lit "Please enter a hotkey combination first")
     else
       setIsTesting true ;;
       setTestResult None ;;
       try_finally
         (try_catch
            (invoke (test_global_hotkey globalShortcut) ;;
             setTestResult (Some success) ;;
             setTimeout clear_testResult 3000)
            (λ err,
               console_error (lit "Hotkey test failed: " ++ err) ;;
               setTestResult (Some error) ;;
               errorToast (lit "Invalid hotkey: " ++ err) ;;
               setTimeout clear_testResult 5000))
         (setIsTesting false)) s.

End Backend.
End SettingsDialog.

(** ** [formatDateTime] (src/lib/utils.ts) *)
Module Utils.
Import JS.

(** A [Date] object is its time value: milliseconds since the epoch, or
    [None] for the [NaN] of an invalid date. *)
Definition Date : Type := option Z.

(** One position of the pattern [/^\d{4}-\d{2}-\d{2} \d{2}:\d{2}:\d{2}$/]. *)
Inductive Atom := digit | char (c : N).

Definition matches_atom (a : Atom) (c : N) : bool :=
  match a with
  | digit => (48 <=? c) && (c <=? 57)
  | char c' => c =? c'
  end%N.

(** An anchored match of a sequence of one-character atoms. *)
Fixpoint test (pattern : list Atom) (s : jsstring) : bool :=
  match pattern, s with
  | [], [] => true
  | a :: pattern', c :: s' => matches_atom a c && test pattern' s'
  | _, _ => false
  end.

Definition timestamp_pattern : list Atom :=
  [ digit; digit; digit; digit; char 45; digit; digit; char 45;
    digit; digit; char 32; digit; digit; char 58; digit; digit; char 58;
    digit; digit ].

(** The shape ["YYYY-MM-DD HH:MM:SS"] spelled out: nineteen code units,
    hyphens at 4 and 7, a space at 10, colons at 13 and 16, decimal digits
    elsewhere. *)
Definition is_timestamp_shape (s : jsstring) : Prop :=
  length s = 19
  ∧ ∀ (i : nat) (c : N), s !! i = Some c →
      if bool_decide (i ∈ [4; 7]) then c = 45%N
      else if bool_decide (i = 10) then c = 32%N
      else if bool_decide (i ∈ [13; 16]) then c = 58%N
      else (48 ≤ c ≤ 57)%N.

Section Engine.
(** The engine and date-fns: the [number] type with its [ToBoolean],
    [new Date(number)], [new Date(string)], and [format] on a valid
    date. *)
Context {number : Type}.
Context (number_truthy : number → bool).
Context (Date_of_number : number → Date).
Context (Date_of_string : jsstring → Date).
Context (format : Z → jsstring → jsstring).

(** [dateStr?: string | Date | number]. *)
Inductive DateArg :=
  | arg_undefined
  | arg_string (s : jsstring)
  | arg_Date (d : Date)
  | arg_number (n : number).

(** [!dateStr]. *)
Definition falsy (dateStr : DateArg) : bool :=
  match dateStr with
  | arg_undefined => true
  | arg_string s => negb (truthy s)
  | arg_Date _ => false
  | arg_number n => negb (number_truthy n)
  end.

(** The [date] the function builds from a truthy argument. *)
Definition to_date (dateStr : DateArg) : Date :=
  match dateStr with
  | arg_Date d => d
  | arg_number n => Date_of_number n
  | arg_string s =>
      if test timestamp_pattern s
      then Date_of_string (s ++ lit "Z")
      else Date_of_string s
  | arg_undefined => None
  end.

Definition formatDateTime (dateStr : DateArg) (is24Hour : bool) :
    option jsstring :=
  if falsy dateStr then None
  else
    match to_date dateStr with
    | None => None                      (* isNaN(date.getTime()) *)
    | Some t =>
        let hourFormat := if is24Hour then lit "HH" else lit "hh" in
        let amPm := if is24Hour then lit "" else lit " a" in
        Some (format t (lit "MM/dd/yyyy " ++ hourFormat ++ lit ":mm:ss"
                        ++ amPm))
    end.

End Engine.
Global Arguments DateArg : clear implicits.

(** [ToBoolean] of a [number], an IEEE double: the test [!dateStr] takes
    the branch for the numbers that compare equal to zero and for the one
    that does not compare equal to itself. *)
Definition number_ToBoolean (n : float) : bool :=
  negb (n =? 0)%float && (n =? n)%float.

(** An engine for running the function: numbers are integers, a date
    string is valid when it carries the ["Z"] suffix, and [format] shows
    the format string it was given. *)
Definition example_parse (s : jsstring) : Date :=
  if bool_decide (last s = Some 90%N) then Some 0%Z else None.

End Utils.

(** ** The controls of the grid (src/GridVirtualizer.tsx) *)
Module GridControls.
Import JS App.

(** [toggleCategory]: the updater it passes to [setSelectedCategories]. *)
Definition toggleCategory (category : jsstring) (prev : list jsstring) :
    list jsstring :=
  if bool_decide (category ∈ prev)
  then filter (λ c, c ≠ category) prev
  else prev ++ [category].

Definition clearAllCategories (prev : list jsstring) : list jsstring := [].

Definition clearSearch (prev : jsstring) : jsstring := [].

(** The two filters of [displayedItems] as one condition on an item. *)
Definition is_displayed (toLowerCase : jsstring → jsstring)
    (searchQuery : jsstring) (selectedCategories : list jsstring)
    (item : ClipItem) : bool :=
  (negb (truthy (trim searchQuery))
   || GridVirtualizer.matches_search toLowerCase
        (trim (toLowerCase searchQuery)) item)
  && (negb (bool_decide (0 < length selectedCategories))
      || GridVirtualizer.matches_category selectedCategories item).

End GridControls.

(** ** Deleting a clip (src/GridVirtualizer.tsx, src/ClipDialog.tsx,
    src/App.tsx)

    [handleDelete] of [GridVirtualizer], called by the delete button of
    [ClipDialog]; [getItems] is the parent's, passed down as a prop. [App]
    renders the grid only while [isLoadingItems] is not set, so every
    [getItems()] unmounts the grid and the answer mounts a new instance,
    whose cells start from their initial values. *)
Module GridDelete.
Import JS App.

Inductive Invocation := delete_item (itemId : jsstring).

Inductive Toast :=
  | successToast (title : jsstring)
  | errorToast (title : jsstring).

(** The [useState] cells of one instance of [GridVirtualizer] that the
    dialog and [handleDelete] use. *)
Record Grid := mkGrid {
  dialogOpen : bool;
  selectedItem : option ClipItem;
  isDeleting : bool }.

(** [useState(false)], [useState(null)], [useState(false)]. *)
Definition fresh : Grid :=
  {| dialogOpen := false; selectedItem := None; isDeleting := false |}.

Record State := mkState {
  app : App.State;               (* the cells of App that getItems updates *)
  (* the mounted instance of GridVirtualizer, if App renders one, and the
     number of the instance mounted last (they are numbered from 0 in the
     order they mount) *)
  grid : option Grid;
  instance : nat;
  toasts : list Toast;
  (* the backend: [delete_item] calls so far; those not yet answered, each
     with the instance whose [handleDelete] awaits it; the [get_items]
     calls not yet answered, each with the instance whose [handleDelete]
     awaits it, if one does *)
  invoked : list Invocation;
  deleting : list (nat * jsstring);
  fetching : list (option nat) }.

Definition set_app v s := mkState v (grid s) (instance s) (toasts s) (invoked s) (deleting s) (fetching s).
Definition set_grid v s := mkState (app s) v (instance s) (toasts s) (invoked s) (deleting s) (fetching s).
Definition set_instance v s := mkState (app s) (grid s) v (toasts s) (invoked s) (deleting s) (fetching s).
Definition set_toasts v s := mkState (app s) (grid s) (instance s) v (invoked s) (deleting s) (fetching s).
Definition set_invoked v s := mkState (app s) (grid s) (instance s) (toasts s) v (deleting s) (fetching s).
Definition set_deleting v s := mkState (app s) (grid s) (instance s) (toasts s) (invoked s) v (fetching s).
Definition set_fetching v s := mkState (app s) (grid s) (instance s) (toasts s) (invoked s) (deleting s) v.

(** [isLoadingItems ? <div>Loading clips...</div> : <GridVirtualizer/>]. *)
Definition shows_grid (a : App.State) : bool :=
  match isLoadingItems a with
  | Some true => false
  | _ => true
  end.

(** One render of [App]: a grid that is no longer rendered is unmounted
    and its cells are lost; a grid rendered anew is a new instance. *)
Definition render (s : State) : State :=
  if shows_grid (app s) then
    match grid s with
    | Some _ => s
    | None => set_instance (S (instance s)) (set_grid (Some fresh) s)
    end
  else set_grid None s.

(** A state setter of instance [i]: it updates the cells of that instance
    while it is mounted and does nothing afterwards. *)
Definition setState (i : nat) (f : Grid → Grid) (s : State) : State :=
  match grid s with
  | Some g =>
      if bool_decide (i = instance s) then set_grid (Some (f g)) s else s
  | None => s
  end.

Definition setDialogOpen (val : bool) (g : Grid) : Grid :=
  {| dialogOpen := val; selectedItem := selectedItem g;
     isDeleting := isDeleting g |}.

Definition setSelectedItem (val : option ClipItem) (g : Grid) : Grid :=
  {| dialogOpen := dialogOpen g; selectedItem := val;
     isDeleting := isDeleting g |}.

Definition setIsDeleting (val : bool) (g : Grid) : Grid :=
  {| dialogOpen := dialogOpen g; selectedItem := selectedItem g;
     isDeleting := val |}.

(** The window after the mount effect of [App]: the first render showed
    instance [0] of the grid ([isLoadingItems] was [undefined]) with no
    items, and [getItems()] has replaced it by the loading text. *)
Definition initial : State :=
  {| app := App.mounted; grid := None; instance := 0; toasts := [];
     invoked := []; deleting := []; fetching := [None] |}.

(** [handleDelete] of the mounted instance, up to
    [await invoke("delete_item", ...)]. *)
Definition handleDelete (itemId : jsstring) (s : State) : State :=
  match grid s with
  | Some g =>
      if isDeleting g then s
      else
        let s := setState (instance s) (setIsDeleting true) s in
        set_deleting (deleting s ++ [(instance s, itemId)])
          (set_invoked (invoked s ++ [delete_item itemId]) s)
  | None => s
  end.

(** [handleDelete] of instance [i] once its [delete_item] is answered: on
    success up to [await getItems()], on rejection through [catch] and
    [finally]. *)
Definition handleDelete_deleted (i : nat) (r : option jsstring) (s : State) :
    State :=
  match r with
  | None =>
      let s :=
        set_toasts
          (toasts s ++ [successToast (lit "Successfully deleted the clip")])
          s in
      let s := setState i (setDialogOpen false) s in
      let s := setState i (setSelectedItem None) s in
      set_fetching (fetching s ++ [Some i]) (set_app (getItems (app s)) s)
  | Some _ =>
      let s :=
        set_toasts (toasts s ++ [errorToast (lit "Failed to delete item")])
          s in
      setState i (setIsDeleting false) s
  end.

(** [handleDelete] of instance [i] once the awaited [getItems()] has
    finished ([getItems] catches its own failure, so the promise always
    resolves): [finally]. *)
Definition handleDelete_refreshed (i : nat) (s : State) : State :=
  setState i (setIsDeleting false) s.

Section Events.
Context {Payload : Type}.

Inductive Event :=
  | card_click (index : nat)            (* the card of items[index] *)
  | dialog_open_change (val : bool)     (* onOpenChange of the dialog *)
  | delete_click                        (* the delete button of the dialog *)
  (* the answer to the [k]-th pending call *)
  | delete_settled (k : nat) (r : option jsstring)
  | get_items_settled (k : nat) (r : list ClipItem + jsstring)
  | app_event (e : App.Event Payload).  (* "clip-saved", "clip-deleted" *)

(** Whether the event can happen. Cards and the dialog belong to a mounted
    grid with items; the delete button is in the open dialog of a selected
    item. That the button is also [disabled] while [isDeleting] is not
    assumed, [handleDelete] tests [isDeleting] itself. *)
Definition enabled (e : Event) (s : State) : bool :=
  match e with
  | card_click index =>
      bool_decide (is_Some (grid s))
      && bool_decide (is_Some (items (app s) !! index))
  | dialog_open_change _ =>
      bool_decide (is_Some (grid s)) && bool_decide (items (app s) ≠ [])
  | delete_click =>
      match grid s with
      | Some g =>
          bool_decide (items (app s) ≠ []) && dialogOpen g
          && bool_decide (is_Some (selectedItem g))
      | None => false
      end
  | delete_settled k _ => bool_decide (is_Some (deleting s !! k))
  | get_items_settled k _ => bool_decide (is_Some (fetching s !! k))
  | app_event e => is_change e
  end.

Definition handle (e : Event) (s : State) : State :=
  match e with
  | card_click index =>
      let s :=
        setState (instance s) (setSelectedItem (items (app s) !! index)) s in
      setState (instance s) (setDialogOpen true) s
  | dialog_open_change val => setState (instance s) (setDialogOpen val) s
  | delete_click =>
      match grid s ≫= selectedItem with
      | Some item => handleDelete (id item) s
      | None => s
      end
  | delete_settled k r =>
      match deleting s !! k with
      | Some (i, _) =>
          handleDelete_deleted i r (set_deleting (delete k (deleting s)) s)
      | None => s
      end
  | get_items_settled k r =>
      match fetching s !! k with
      | Some waiting =>
          let s :=
            set_fetching (delete k (fetching s))
              (set_app (getItems_settled r (app s)) s) in
          match waiting with
          | Some i => handleDelete_refreshed i s
          | None => s
          end
      | None => s
      end
  | app_event e =>
      if is_change e
      then set_fetching (fetching s ++ [None])
             (set_app (App.handle e (app s)) s)
      else s
  end.

(** The handler runs, then React renders. *)
Definition step (s : State) (e : Event) : option State :=
  if enabled e s then Some (render (handle e s)) else None.

Fixpoint run (s : State) (es : list Event) : option State :=
  match es with
  | [] => Some s
  | e :: es' => step s e ≫= λ s', run s' es'
  end.

End Events.
Global Arguments Event : clear implicits.





End GridDelete.

(** ** The grid of cards (src/ClipCards.tsx) *)
Module ClipCards.
Import JS App.

(** [window.innerWidth] is an integer (a WebIDL [long]). *)
Definition getItemsPerRow (width : Z) : nat :=
  if (width <? 640)%Z then 1
  else if (width <? 768)%Z then 2
  else if (width <? 1024)%Z then 3
  else 4.

Definition getGridClasses (width : Z) : jsstring :=
  if (width <? 640)%Z then lit "grid-cols-1"
  else if (width <? 768)%Z then lit "grid-cols-2"
  else if (width <? 1024)%Z then lit "grid-cols-3"
  else lit "grid-cols-4".

(** [Math.ceil(a / b)] on a length [a] and a positive count [b]: the
    quotient of two such integers is far enough from the next integer for
    its double to round up to the same value. *)
Definition ceil_div (a b : nat) : nat := (a + (b - 1)) / b.

Definition rowCount {A} (displayedItems : list A) (itemsPerRow : nat) : nat :=
  ceil_div (length displayedItems) itemsPerRow.

(** [l.slice(start, end)] for indices that are not negative. *)
Definition slice {A} (start end_ : nat) (l : list A) : list A :=
  take (end_ - start) (drop start l).

(** The items of the virtual row [rowIndex]. *)
Definition rowItems {A} (displayedItems : list A) (itemsPerRow rowIndex : nat) :
    list A :=
  let startIndex := rowIndex * itemsPerRow in
  let endIndex := min (startIndex + itemsPerRow) (length displayedItems) in
  slice startIndex endIndex displayedItems.

(** The tag badges of a card: [item.tags.slice(0, 2)] and, when there are
    more than two tags, the number behind the ["+"] of the last badge. *)
Definition shownTags (item : ClipItem) : list jsstring :=
  match tags item with
  | Some t => slice 0 2 t
  | None => []
  end.

Definition hiddenTags (item : ClipItem) : option nat :=
  match tags item with
  | Some t => if bool_decide (2 < length t) then Some (length t - 2) else None
  | None => None
  end.

Definition tagged_item : ClipItem :=
  {| id := lit "3"; clip := {| Text := None; Image := None |};
     created_at := []; category := None; summary := None;
     tags := Some [lit "a"; lit "b"; lit "c"; lit "d"] |}.

End ClipCards.

(** ** Rendering the content of a clip (src/GridVirtualizer.tsx) *)
Module ClipContent.
Import JS App.

(** [s.split(sep)] for a separator of one code unit. *)
Fixpoint split (sep : N) (s : jsstring) : list jsstring :=
  match s with
  | [] => [[]]
  | c :: s' =>
      if (c =? sep)%N then [] :: split sep s'
      else match split sep s' with
           | part :: parts => (c :: part) :: parts
           | [] => [[c]]
           end
  end.

(** [displayCode] of [CodeBlock]; the line feed is code unit 10. *)
Definition displayCode (code : jsstring) (truncate : bool) : jsstring :=
  let lines := split 10 code in
  if truncate && bool_decide (3 < length lines)
  then join [10%N] (ClipCards.slice 0 3 lines) ++ [10%N] ++ lit "..."
  else code.

End ClipContent.

(** ** Sequential handlers with [try]/[catch]/[finally]

    A state monad with exceptions over any record of state cells; an
    awaited call is answered by an oracle of the handler. *)
Module Async.
Import JS.

Inductive Outcome (A : Type) :=
  | Returned (a : A)
  | Thrown (err : jsstring).
Global Arguments Returned {A} a.
Global Arguments Thrown {A} err.

Definition M (S A : Type) : Type := S → Outcome A * S.

#[global] Instance M_ret {S} : MRet (M S) := λ A a s, (Returned a, s).

#[global] Instance M_bind {S} : MBind (M S) := λ A B k m s,
  match m s with
  | (Returned a, s') => k a s'
  | (Thrown e, s') => (Thrown e, s')
  end.

(** [try { body } catch (error) { handler error }]. *)
Definition try_catch {S A} (body : M S A) (handler : jsstring → M S A) :
    M S A :=
  λ s, match body s with
       | (Returned a, s') => (Returned a, s')
       | (Thrown e, s') => handler e s'
       end.

(** [try { body } finally { cleanup }]. *)
Definition try_finally {S A} (body : M S A) (cleanup : M S unit) : M S A :=
  λ s, match body s with
       | (o, s') =>
           match cleanup s' with
           | (Returned _, s'') => (o, s'')
           | (Thrown e, s'') => (Thrown e, s'')
           end
       end.

Definition modify {S} (f : S → S) : M S unit := λ s, (Returned tt, f s).

(** An awaited promise that has resolved with a value or rejected. *)
Definition settle {S A} (answer : A + jsstring) : M S A :=
  λ s, match answer with
       | inl a => (Returned a, s)
       | inr e => (Thrown e, s)
       end.

End Async.

(** ** The image viewer (src/components/ImageViewer.tsx) *)
Module ImageViewer.
Import JS Async.

(** [Math.min] and [Math.max] on doubles: [NaN] if an argument is [NaN],
    and [-0] below [+0]. *)
Definition Math_min (a b : float) : float :=
  if (is_nan a || is_nan b)%bool then nan
  else if (b <? a)%float then b
  else if (a <? b)%float then a
  else match classify b with NZero => b | _ => a end.

Definition Math_max (a b : float) : float :=
  if (is_nan a || is_nan b)%bool then nan
  else if (a <? b)%float then b
  else if (b <? a)%float then a
  else match classify b with PZero => b | _ => a end.

(** The updaters of [handleZoomIn], [handleZoomOut] and [handleRotate]. The
    rotation only takes integer values, on which [%] is the remainder of
    the truncated division. *)
Definition handleZoomIn (prev : float) : float :=
  Math_min (prev + 0.25)%float 3%float.

Definition handleZoomOut (prev : float) : float :=
  Math_max (prev - 0.25)%float 0.25%float.

Definition handleRotate (prev : Z) : Z := Z.rem (prev + 90) 360.

Inductive ViewAction := zoom_in | zoom_out | rotate.

(** The pair [(zoom, rotation)], from [useState(1)] and [useState(0)]. *)
Definition initial_view : float * Z := (1%float, 0%Z).

Definition act (view : float * Z) (a : ViewAction) : float * Z :=
  match a with
  | zoom_in => (handleZoomIn view.1, view.2)
  | zoom_out => (handleZoomOut view.1, view.2)
  | rotate => (view.1, handleRotate view.2)
  end.

(** The zoom factors from 25% to 300% in steps of 25%. *)
Definition zoom_levels : list float :=
  [0.25; 0.5; 0.75; 1; 1.25; 1.5; 1.75; 2; 2.25; 2.5; 2.75; 3]%float.

(** *** Saving and copying the image *)

Inductive Invocation :=
  | save_dialog (defaultPath : jsstring)            (* save({...}) *)
  | save_image_to_file (itemId filePath : jsstring)
  | copy_image_to_clipboard (itemId : jsstring).

Inductive Toast :=
  | successToast (title : jsstring)
  | errorToast (title : jsstring).

Record State := mkState {
  isLoading : bool;
  toasts : list Toast;
  console : list jsstring;
  invoked : list Invocation }.

Definition setIsLoading (v : bool) : M State unit :=
  modify (λ s, mkState v (toasts s) (console s) (invoked s)).
Definition toast (t : Toast) : M State unit :=
  modify (λ s, mkState (isLoading s) (toasts s ++ [t]) (console s)
                       (invoked s)).
Definition console_error (line : jsstring) : M State unit :=
  modify (λ s, mkState (isLoading s) (toasts s) (console s ++ [line])
                       (invoked s)).
Definition call (c : Invocation) : M State unit :=
  modify (λ s, mkState (isLoading s) (toasts s) (console s)
                       (invoked s ++ [c])).

Section Handlers.
(** The [itemId] prop, the decimal text of [Date.now()], the answer of the
    save dialog (a path, or [null] when the user dismisses it) and the
    answers of the backend commands. *)
Context (itemId now : jsstring).
Context (dialog : option jsstring + jsstring).
Context (backend : Invocation → unit + jsstring).

Definition handleSaveImage : M State unit :=
  try_finally
    (try_catch
       (setIsLoading true ;;
        call (save_dialog (lit "spiegel-image-" ++ now ++ lit ".png")) ;;
        filePath ← settle dialog ;
        if truthy_opt filePath
        then
          let path := default [] filePath in
          call (save_image_to_file itemId path) ;;
          settle (backend (save_image_to_file itemId path)) ;;
          toast (successToast (lit "Image saved successfully!"))
        else mret ())
       (λ err,
          console_error (lit "Failed to save image: " ++ err) ;;
          toast (errorToast (lit "Failed to save image"))))
    (setIsLoading false).

Definition handleCopyImage : M State unit :=
  try_finally
    (try_catch
       (setIsLoading true ;;
        call (copy_image_to_clipboard itemId) ;;
        settle (backend (copy_image_to_clipboard itemId)) ;;
        toast (successToast (lit "Image copied to clipboard!")))
       (λ err,
          console_error (lit "Failed to copy image: " ++ err) ;;
          toast (errorToast (lit "Failed to copy image"))))
    (setIsLoading false).

End Handlers.
End ImageViewer.

(** ** Editing and saving the settings (src/SettingsDialog.tsx) *)
Module SettingsForm.
Import JS Async.

Inductive Invocation :=
  | set_global_hotkey (hotkey : jsstring)
  | set_setting (key value : jsstring).

(** The props and cells [saveSettings] and the change handlers touch. *)
Record State := mkState {
  globalShortcut : jsstring;
  llmApiKey : jsstring;
  hasChanges : bool;
  isSaving : bool;
  testResult : option SettingsDialog.TestResult;
  toasts : list jsstring;             (* errorToast titles *)
  console : list jsstring;
  invoked : list Invocation }.

Definition setGlobalShortcut (v : jsstring) (s : State) : State :=
  mkState v (llmApiKey s) (hasChanges s) (isSaving s) (testResult s)
          (toasts s) (console s) (invoked s).
Definition setLlmApiKey (v : jsstring) (s : State) : State :=
  mkState (globalShortcut s) v (hasChanges s) (isSaving s) (testResult s)
          (toasts s) (console s) (invoked s).
Definition setHasChanges (v : bool) (s : State) : State :=
  mkState (globalShortcut s) (llmApiKey s) v (isSaving s) (testResult s)
          (toasts s) (console s) (invoked s).
Definition setIsSaving (v : bool) (s : State) : State :=
  mkState (globalShortcut s) (llmApiKey s) (hasChanges s) v (testResult s)
          (toasts s) (console s) (invoked s).
Definition setTestResult (v : option SettingsDialog.TestResult) (s : State) :
    State :=
  mkState (globalShortcut s) (llmApiKey s) (hasChanges s) (isSaving s) v
          (toasts s) (console s) (invoked s).
Definition errorToast (title : jsstring) (s : State) : State :=
  mkState (globalShortcut s) (llmApiKey s) (hasChanges s) (isSaving s)
          (testResult s) (toasts s ++ [title]) (console s) (invoked s).
Definition console_error (line : jsstring) (s : State) : State :=
  mkState (globalShortcut s) (llmApiKey s) (hasChanges s) (isSaving s)
          (testResult s) (toasts s) (console s ++ [line]) (invoked s).
Definition call (c : Invocation) (s : State) : State :=
  mkState (globalShortcut s) (llmApiKey s) (hasChanges s) (isSaving s)
          (testResult s) (toasts s) (console s) (invoked s ++ [c]).

Definition handleShortcutChange (value : jsstring) (s : State) : State :=
  setTestResult None (setHasChanges true (setGlobalShortcut value s)).

Definition handleApiKeyChange (value : jsstring) (s : State) : State :=
  setHasChanges true (setLlmApiKey value s).

Section Backend.
(** The answers of the backend commands. *)
Context (backend : Invocation → unit + jsstring).

Definition invoke (c : Invocation) : M State unit :=
  modify (call c) ;; settle (backend c).

Definition saveSettings : M State unit :=
  λ s,
    (modify (setIsSaving true) ;;
     try_finally
       (try_catch
          (invoke (set_global_hotkey (globalShortcut s)) ;;
           invoke (set_setting (lit "llm_api_key") (llmApiKey s)) ;;
           modify (setHasChanges false))
          (λ err,
             modify (console_error (lit "Failed to save settings: " ++ err)) ;;
             modify (errorToast (lit "Failed to save settings"))))
       (modify (setIsSaving false))) s.

End Backend.

Section Engine.
Context (toLowerCase toUpperCase : jsstring → jsstring).

(** [finishCapture], on the keys recorded so far (in insertion order);
    [stop()] belongs to the recording hook. *)
Definition finishCapture (keys : list jsstring) (s : State) : State :=
  if bool_decide (0 < length keys)
  then setHasChanges true
         (setGlobalShortcut
            (SettingsDialog.formatHotkey toLowerCase toUpperCase keys) s)
  else s.

(** The test of the effect that finishes a capture by itself. *)
Definition modifierNames : list jsstring :=
  lit <$> ["control"; "meta"; "shift"; "alt"; "cmd"; "command"]%string.

Definition hasModifier (keys : list jsstring) : bool :=
  existsb (λ key, bool_decide (toLowerCase key ∈ modifierNames)) keys.

Definition hasRegularKey (keys : list jsstring) : bool :=
  existsb (λ key, negb (bool_decide (toLowerCase key ∈ modifierNames))) keys.

Definition finishes_by_itself (isRecording : bool) (keys : list jsstring) :
    bool :=
  isRecording && bool_decide (0 < length keys)
  && (hasModifier keys && hasRegularKey keys).

End Engine.
End SettingsForm.

(** ** Loading the settings (src/App.tsx) *)
Module AppSettings.
Import JS.

(** The cells [loadSettings] and the effect on [llmApiKey] touch. *)
Record State := mkState {
  globalShortcut : jsstring;
  llmApiKey : jsstring;
  hasChanges : bool;
  hasLlmApiKey : bool;
  console : list jsstring }.

Definition initial : State :=
  {| globalShortcut := []; llmApiKey := []; hasChanges := false;
     hasLlmApiKey := false; console := [] |}.

(** [settings[key]] on [interface Settings { [key: string]: string | null }]:
    a missing key reads [undefined] and a stored [null] reads [null], both
    falsy. *)
Definition read (settings : gmap jsstring (option jsstring)) (key : jsstring) :
    option jsstring :=
  settings !! key ≫= λ v, v.

(** [loadSettings] once [get_all_settings] is answered. *)
Definition loadSettings_settled
    (answer : gmap jsstring (option jsstring) + jsstring) (s : State) :
    State :=
  match answer with
  | inl settings =>
      let shortcut := read settings (lit "global_hotkey") in
      let apiKey := read settings (lit "llm_api_key") in
      {| globalShortcut := or_default shortcut (lit "CommandOrControl+Shift+C");
         llmApiKey := or_default apiKey (lit "");
         hasChanges := false;
         hasLlmApiKey := hasLlmApiKey s;
         console := console s |}
  | inr err =>
      {| globalShortcut := globalShortcut s; llmApiKey := llmApiKey s;
         hasChanges := hasChanges s; hasLlmApiKey := hasLlmApiKey s;
         console := console s ++ [lit "Failed to load settings: " ++ err] |}
  end.

(** The effect on [[llmApiKey]]. *)
Definition effect_llmApiKey (s : State) : State :=
  {| globalShortcut := globalShortcut s; llmApiKey := llmApiKey s;
     hasChanges := hasChanges s;
     hasLlmApiKey := negb (bool_decide (trim (llmApiKey s) = lit ""));
     console := console s |}.

(** The window once the settings are loaded and the effect has run. *)
Definition loaded (answer : gmap jsstring (option jsstring) + jsstring)
    (s : State) : State :=
  effect_llmApiKey (loadSettings_settled answer s).

End AppSettings.

(** ** Regular expressions on code units

    The fragment the sources use, matched against the whole input (the
    patterns are anchored with [^] and [$] and carry no [m] flag). *)
Module Regex.
Import JS.

Inductive Regex :=
  | Never                          (* matches nothing *)
  | Empty                          (* matches the empty string *)
  | Unit (accepts : N → bool)      (* one code unit of a class *)
  | Seq (r1 r2 : Regex)
  | Alt (r1 r2 : Regex)
  | Star (r : Regex).

Definition chr (c : N) : Regex := Unit (λ c', (c' =? c)%N).
Definition opt (r : Regex) : Regex := Alt r Empty.            (* r? *)
Definition plus (r : Regex) : Regex := Seq r (Star r).        (* r+ *)
Definition literal (s : jsstring) : Regex := foldr (λ c r, Seq (chr c) r) Empty s.

Fixpoint nullable (r : Regex) : bool :=
  match r with
  | Never => false
  | Empty => true
  | Unit _ => false
  | Seq r1 r2 => nullable r1 && nullable r2
  | Alt r1 r2 => nullable r1 || nullable r2
  | Star _ => true
  end.

(** What is left to match after the code unit [c]. *)
Fixpoint deriv (c : N) (r : Regex) : Regex :=
  match r with
  | Never => Never
  | Empty => Never
  | Unit accepts => if accepts c then Empty else Never
  | Seq r1 r2 =>
      if nullable r1
      then Alt (Seq (deriv c r1) r2) (deriv c r2)
      else Seq (deriv c r1) r2
  | Alt r1 r2 => Alt (deriv c r1) (deriv c r2)
  | Star r' => Seq (deriv c r') (Star r')
  end.

(** [/^r$/.test(s)]. *)
Fixpoint test (r : Regex) (s : jsstring) : bool :=
  match s with
  | [] => nullable r
  | c :: s' => test (deriv c r) s'
  end.

End Regex.

(** ** Links and the rendering of a clip
    (src/lib/utils.ts, src/GridVirtualizer.tsx) *)
Module ClipRender.
Import JS App Regex.

(** [/^https?:\/\/[^\s]+$/]. *)
Definition url_pattern : Regex :=
  Seq (literal (lit "http"))
    (Seq (opt (chr 115))
       (Seq (literal (lit "://"))
          (plus (Unit (λ c, negb (isWhiteSpace c)))))).

Definition isUrl (text : jsstring) : bool := test url_pattern text.

(** What [renderClipContent] returns, by the element it builds. *)
Inductive Rendering :=
  | code_block (code : jsstring) (truncate : bool)
  | link (href : jsstring) (highlighted : bool)
  | plain_text (text : jsstring) (truncate : bool)
  | image (data : jsstring) (truncate : bool)
  | unknown_clip.

Definition renderClipContent (clip : Clip) (truncate : bool)
    (searchQuery category : option jsstring) : Rendering :=
  match plain <$> Text clip with
  | Some (c :: t) =>
      let text := c :: t in
      if bool_decide (category = Some (lit "code_snippet"))
      then code_block text truncate
      else if isUrl text
      then link text (truthy_opt searchQuery && negb truncate)
      else plain_text text truncate
  | _ =>
      match Image clip with
      | Some img => image (data img) truncate
      | None => unknown_clip
      end
  end.

End ClipRender.

(** ** Highlighting the search term (src/ClipDialog.tsx) *)
Module ClipDialog.
Import JS.

(** The class [[.*+?^${}()|[\]\\]] of the escaping [replace]: the syntax
    characters of a pattern. *)
Definition is_syntax_character (c : N) : bool :=
  bool_decide (c ∈ lit ".*+?^${}()|[]\").

(** [query.replace(/[.*+?^${}()|[\]\\]/g, "\\$&")]: a backslash (code unit
    92) goes before every syntax character. *)
Definition escape (query : jsstring) : jsstring :=
  query ≫= λ c, if is_syntax_character c then [92%N; c] else [c].

(** The source of the pattern [highlightSearchTerm] compiles, or [None]
    when it returns the text as it is ([!searchQuery ||
    !searchQuery.trim()]). *)
Definition highlight_source (searchQuery : option jsstring) :
    option jsstring :=
  match searchQuery with
  | Some q =>
      if truthy q && truthy (trim q)
      then Some (lit "(" ++ escape (trim q) ++ lit ")")
      else None
  | None => None
  end.

(** Reading a pattern source that is a plain sequence of characters: a
    pattern character stands for itself, a backslash followed by a syntax
    character for that character; any other use of a syntax character is
    not plain. *)
Fixpoint plain_source (source : jsstring) : option jsstring :=
  match source with
  | [] => Some []
  | c :: rest =>
      if (c =? 92)%N
      then match rest with
           | c' :: rest' =>
               if is_syntax_character c'
               then (c' ::.) <$> plain_source rest'
               else None
           | [] => None
           end
      else if is_syntax_character c then None
      else (c ::.) <$> plain_source rest
  end.

End ClipDialog.

(** * Properties *)

(** ** Strings *)
Module JSFacts.
Import JS.

Lemma truthy_true (s : jsstring) : truthy s = true ↔ s ≠ [].
Proof. destruct s; simpl; split; congruence. Qed.

Lemma truthy_false (s : jsstring) : truthy s = false ↔ s = [].
Proof. destruct s; simpl; split; congruence. Qed.

Lemma trimStart_nil_iff (s : jsstring) :
  trimStart s = [] ↔ forallb isWhiteSpace s = true.
Proof.
  induction s as [|c s IH]; simpl; [done|].
  destruct (isWhiteSpace c); simpl; [done|]. split; congruence.
Qed.

Lemma trimStart_all_white (s : jsstring) :
  forallb isWhiteSpace s = true → trimStart s = [].
Proof. apply trimStart_nil_iff. Qed.

Lemma forallb_reverse {A} (f : A → bool) (l : list A) :
  forallb f (reverse l) = forallb f l.
Proof.
  induction l as [|a l IH]; [done|].
  rewrite reverse_cons, forallb_app, IH. simpl.
  rewrite andb_true_r. apply andb_comm.
Qed.

Lemma trimStart_head (s t : jsstring) (c : N) :
  trimStart s = c :: t → isWhiteSpace c = false.
Proof.
  induction s as [|a s IH]; simpl; [done|].
  destruct (isWhiteSpace a) eqn:Ha; [done|]. congruence.
Qed.

Lemma reverse_nil_inv {A} (l : list A) : reverse l = [] → l = [].
Proof.
  intros H. apply (f_equal reverse) in H. by rewrite reverse_involutive in H.
Qed.

(** [s.trim()] is empty exactly for the strings made of white space only
    (the empty string among them). *)
Lemma trim_nil_iff (s : jsstring) :
  trim s = [] ↔ forallb isWhiteSpace s = true.
Proof.
  unfold trim, trimEnd. split.
  - intros H%reverse_nil_inv. apply trimStart_nil_iff in H.
    rewrite forallb_reverse in H.
    destruct (trimStart s) as [|c t] eqn:Ht.
    + by apply trimStart_nil_iff.
    + apply trimStart_head in Ht. simpl in H. by rewrite Ht in H.
  - intros H%trimStart_nil_iff. by rewrite H.
Qed.

(** The string functions on a few inputs. *)
Example trim_example : trim (lit "  a b  ") = lit "a b".
Proof. reflexivity. Qed.

Example trim_tab_newline : trim [9; 10; 120; 160; 8233]%N = [120]%N.
Proof. reflexivity. Qed.

Example or_chain_example :
  or_default (or_opt (trim (lit " ")) (Some (lit "url"))) (lit "Other")
  = lit "url".
Proof. reflexivity. Qed.

Example or_chain_empty_suggestion :
  or_default (or_opt (trim (lit "")) (Some (lit ""))) (lit "Other")
  = lit "Other".
Proof. reflexivity. Qed.

Example includes_example : includes (lit "hello world") (lit "lo w") = true.
Proof. reflexivity. Qed.

Example includes_empty : includes (lit "") (lit "") = true.
Proof. reflexivity. Qed.

Example join_example :
  join (lit "+") [lit "Shift"; lit "A"] = lit "Shift+A".
Proof. reflexivity. Qed.

Example replace_example :
  replace_spaces (replace_dash_underscore (lit "a-_b   c")) = lit "a b c".
Proof. reflexivity. Qed.

End JSFacts.

(** ** The capture-session toolbar *)
Module ToolbarFacts.
Import JS JSFacts Toolbar.

Section Engine.
Context (toLowerCase : jsstring → jsstring).

(** Case analysis over the guards of one commit. *)
Ltac commit_cases :=
  unfold Toolbar.commit;
  repeat (case_match; simpl in *; try done).

(** Boolean guards in the context turned into the facts they decide. *)
Ltac guards :=
  repeat match goal with
  | H : _ && _ = true |- _ => apply andb_true_iff in H as [? ?]
  | H : _ || _ = false |- _ => apply orb_false_iff in H as [? ?]
  | H : negb _ = true |- _ => apply negb_true_iff in H
  | H : negb _ = false |- _ => apply negb_false_iff in H
  | H : bool_decide _ = true |- _ => apply bool_decide_eq_true in H
  | H : bool_decide _ = false |- _ => apply bool_decide_eq_false in H
  | H : truthy _ = false |- _ => apply truthy_false in H
  end.

(** *** What a commit leaves alone *)

Lemma commit_frame s :
  clipData (commit s) = clipData s ∧ isSaving (commit s) = isSaving s
  ∧ isLoadingClipData (commit s) = isLoadingClipData s
  ∧ invoked (commit s) = invoked s ∧ in_flight (commit s) = in_flight s
  ∧ alerts (commit s) = alerts s.
Proof. commit_cases. Qed.

Lemma settle_frame s :
  clipData (settle s) = clipData s ∧ isSaving (settle s) = isSaving s
  ∧ isLoadingClipData (settle s) = isLoadingClipData s
  ∧ invoked (settle s) = invoked s ∧ in_flight (settle s) = in_flight s
  ∧ alerts (settle s) = alerts s.
Proof.
  unfold Toolbar.settle.
  destruct (commit_frame (commit (commit (commit s)))) as (->&->&->&->&->&->).
  destruct (commit_frame (commit (commit s))) as (->&->&->&->&->&->).
  destruct (commit_frame (commit s)) as (->&->&->&->&->&->).
  apply commit_frame.
Qed.

Lemma commit_aiSuggestion s : aiSuggestion (commit s) = aiSuggestion s.
Proof. unfold aiSuggestion. by destruct (commit_frame s) as (->&_). Qed.

Lemma settle_aiSuggestion s : aiSuggestion (settle s) = aiSuggestion s.
Proof. unfold aiSuggestion. by destruct (settle_frame s) as (->&_). Qed.

(** *** Effects settle *)

Lemma commit_deps s :
  dep_value (commit s) = userCategory s
  ∧ dep_aiSuggestion (commit s) = aiSuggestion s
  ∧ dep_inputValue (commit s) = inputValue s.
Proof. commit_cases. Qed.

(** The first effect runs at most once in a row: it sets [isInitialized]. *)
Lemma commit_first_effect s : first_effect_fires (commit s) = false.
Proof.
  unfold first_effect_fires. rewrite commit_aiSuggestion.
  unfold Toolbar.commit.
  destruct (aiSuggestion s) as [sugg|] eqn:Hai; [|done].
  destruct (truthy sugg) eqn:Hs; [|done].
  destruct (isInitialized s) eqn:Hi, (truthy (userCategory s)) eqn:Hu;
    simpl; repeat (case_match; simpl; try done);
    rewrite ?Hi, ?Hu, ?Hs; simpl; try done.
Qed.

Lemma commit_without_first_effect s :
  first_effect_fires s = false →
  userCategory (commit s) = userCategory s
  ∧ isInitialized (commit s) = isInitialized s.
Proof.
  unfold first_effect_fires. intros H.
  unfold Toolbar.commit.
  destruct (aiSuggestion s) as [sugg|]; [rewrite H|];
    repeat (case_match; simpl; try done).
Qed.

Lemma commit_inputValue_stable s :
  first_effect_fires s = false → dep_value s = userCategory s →
  inputValue (commit s) = inputValue s.
Proof.
  unfold first_effect_fires. intros H Hd.
  unfold Toolbar.commit. rewrite Hd.
  rewrite (bool_decide_eq_true_2 (userCategory s = userCategory s)) by done.
  destruct (aiSuggestion s) as [sugg|]; [rewrite H|];
    repeat (case_match; simpl; try done).
Qed.

(** With nothing left to run, a commit can only drop the focus of an
    input that is no longer rendered. *)
Lemma commit_quiescent s :
  quiescent s → first_effect_fires s = false →
  commit s = set_focused (focused s && showInput s) s.
Proof.
  unfold quiescent, first_effect_fires. intros (Hv & Ha & Hi) H.
  unfold Toolbar.commit. rewrite Hv, Ha, Hi.
  rewrite !bool_decide_eq_true_2 by done. simpl.
  destruct s as [cd uc il sv iv ii sh fo dv da di inv fl al]; simpl in *.
  subst. destruct (aiSuggestion _) as [sugg|]; [rewrite H|]; by subst.
Qed.

Lemma commit3_quiescent s : quiescent (commit (commit (commit s))).
Proof.
  pose proof (commit_first_effect s) as H1.
  pose proof (commit_first_effect (commit s)) as H2.
  destruct (commit_without_first_effect _ H1) as [Hu1 _].
  destruct (commit_without_first_effect _ H2) as [Hu2 _].
  destruct (commit_deps (commit s)) as (Hd1 & _ & _).
  destruct (commit_deps (commit (commit s))) as (Hd2 & Ha2 & Hi2).
  repeat split.
  - by rewrite Hd2, Hu2.
  - by rewrite Ha2, !commit_aiSuggestion.
  - rewrite Hi2. symmetry. apply commit_inputValue_stable; [done|].
    by rewrite Hd1, Hu1.
Qed.

(** After [settle] a further commit changes nothing. *)
Lemma settle_quiescent s : commit (settle s) = settle s.
Proof.
  unfold Toolbar.settle.
  set (s3 := commit (commit (commit s))).
  assert (quiescent s3) as Hq by apply commit3_quiescent.
  assert (first_effect_fires s3 = false) as Hf by apply commit_first_effect.
  clearbody s3. rewrite (commit_quiescent s3 Hq Hf).
  destruct Hq as (?&?&?).
  destruct s3 as [cd uc il sv iv ii sh fo dv da di inv fl al]; simpl in *.
  rewrite commit_quiescent; [|done..].
  simpl. by destruct fo, sh.
Qed.

Lemma settle_is_quiescent s : quiescent (settle s).
Proof.
  unfold Toolbar.settle.
  set (s3 := commit (commit (commit s))).
  assert (quiescent s3) as Hq by apply commit3_quiescent.
  rewrite (commit_quiescent s3 Hq) by apply commit_first_effect.
  clearbody s3. destruct Hq as (?&?&?). by destruct s3.
Qed.

(** *** Invariants of the session *)

Lemma commit_badge_when_empty s :
  badge_when_empty s → badge_when_empty (commit s).
Proof.
  unfold badge_when_empty. rewrite commit_aiSuggestion.
  destruct (commit_deps s) as (_ & -> & ->).
  intros Hs _ Hiv Hai Hnil. rewrite <- Hiv in Hnil.
  revert Hs Hiv. unfold Toolbar.commit. rewrite Hai, Hnil. simpl.
  destruct (aiSuggestion s) as [sugg|] eqn:Hs; simpl in *.
  - rewrite Hai. simpl.
    repeat (case_match; simpl; try done); intros; simplify_eq/=;
      guards; eauto.
  - repeat (case_match; simpl; try done); intros; simplify_eq/=;
      guards; eauto.
Qed.

Lemma commit_empty_in_step s :
  empty_in_step s → empty_in_step (commit s).
Proof.
  unfold empty_in_step, Toolbar.commit.
  destruct (aiSuggestion s) as [sugg|] eqn:Hs; simpl in *;
    repeat (case_match; simpl; try done); intros; simplify_eq/=;
      guards; eauto; try congruence.
Qed.

Lemma handle_badge_when_empty e s :
  enabled e s = true → quiescent s → badge_when_empty s →
  badge_when_empty (handle toLowerCase e s).
Proof.
  unfold quiescent, badge_when_empty. intros He (Hv & Ha & Hi) Hs.
  destruct s as [cd uc il sv iv ii sh fo dv da di inv fl al].
  unfold aiSuggestion in *. simpl in *. subst dv da di.
  specialize (Hs eq_refl eq_refl).
  destruct e as [p|v|key shift| | | | | |r]; simpl in *;
    unfold save_disabled, aiSuggestion in *; simpl in *.
  - unfold on_clip_data, clip_data_listener; simpl.
    destruct (suggested_category p) as [sugg|] eqn:Hp; simpl;
      repeat (case_match; simpl in *; try done); intros; simplify_eq/=;
      rewrite ?Hp in *; eauto; apply Hs; congruence.
  - intros _ <-. guards; subst. eauto.
  - unfold CategoryInput_handleKeyDown, ClipToolbar_handleKeyDown,
      handleInputBlur, shows_suggestion, handleSave, handleCancel,
      aiSuggestion; simpl.
    repeat (case_match; simpl in *; try done); intros; simplify_eq/=;
      guards; eauto.
  - done.
  - unfold handleInputBlur, shows_suggestion, aiSuggestion; simpl.
    repeat (case_match; simpl in *; try done); intros; simplify_eq/=;
      guards; eauto.
  - intros _ _ Hf _. guards. congruence.
  - done.
  - done.
  - by destruct r.
Qed.

Lemma handle_empty_in_step e s :
  empty_in_step s → empty_in_step (handle toLowerCase e s).
Proof.
  unfold empty_in_step. intros Hs.
  destruct s as [cd uc il sv iv ii sh fo dv da di inv fl al]. simpl in *.
  destruct e as [p|v|key shift| | | | | |r]; simpl in *; try done.
  - unfold on_clip_data, clip_data_listener; simpl.
    repeat (case_match; simpl in *; try done); intros; simplify_eq/=.
  - unfold CategoryInput_handleKeyDown, ClipToolbar_handleKeyDown,
      handleInputBlur, shows_suggestion, handleSave, handleCancel,
      aiSuggestion; simpl.
    repeat (case_match; simpl in *; try done).
  - unfold handleInputBlur. by case_match.
  - by destruct r.
Qed.

Lemma settle_invariant s :
  badge_when_empty s → empty_in_step s → session_invariant (settle s).
Proof.
  intros Hb He. split; [apply settle_is_quiescent|].
  unfold Toolbar.settle. split.
  - by do 4 apply commit_badge_when_empty.
  - by do 4 apply commit_empty_in_step.
Qed.

Lemma initial_invariant : session_invariant initial.
Proof. by repeat split. Qed.

Lemma step_invariant s e s' :
  session_invariant s → step toLowerCase s e = Some s' →
  session_invariant s'.
Proof.
  intros (Hq & Hb & He). unfold Toolbar.step.
  destruct (enabled e s) eqn:Hen; [|done]. intros [= <-].
  apply settle_invariant.
  - by apply handle_badge_when_empty.
  - by apply handle_empty_in_step.
Qed.

Lemma run_invariant es : ∀ s s',
  session_invariant s → run toLowerCase s es = Some s' →
  session_invariant s'.
Proof.
  induction es as [|e es IH]; simpl; intros s s' Hs.
  - by intros [= <-].
  - destruct (step toLowerCase s e) as [s1|] eqn:H1; [|done]. simpl.
    apply IH. by eapply step_invariant.
Qed.

Lemma reachable_invariant s :
  reachable toLowerCase s → session_invariant s.
Proof. intros [es Hes]. eapply run_invariant; [apply initial_invariant|done]. Qed.

(** *** What a step adds to the log of invoked commands *)

Lemma submitted_category_spec s :
  submitted_category s
  = specified_category (userCategory s) (aiSuggestion s).
Proof.
  unfold submitted_category, specified_category, or_default, or_opt.
  destruct (trim (userCategory s)) as [|c t]; simpl; [|done].
  destruct (aiSuggestion s) as [[|c t]|]; done.
Qed.

Lemma step_invoked s e s' :
  step toLowerCase s e = Some s' →
  invoked s' = invoked (handle toLowerCase e s).
Proof.
  unfold Toolbar.step. case_match; [|done]. intros [= <-].
  by destruct (settle_frame (handle toLowerCase e s)) as (_&_&_&->&_).
Qed.

Lemma handleSave_invoked s :
  invoked (handleSave s)
  = invoked s ++ [submit_clip (submitted_category s) (clip <$> clipData s)].
Proof. done. Qed.

Lemma save_request_invoked s e :
  is_save_request e = true →
  invoked (handle toLowerCase e s)
  = invoked s ++ [submit_clip (submitted_category s) (clip <$> clipData s)].
Proof.
  destruct e as [p|v|key shift| | | | | |r]; simpl; try done.
  intros [Hk Hs]%andb_true_iff. apply bool_decide_eq_true in Hk as ->.
  unfold CategoryInput_handleKeyDown, ClipToolbar_handleKeyDown.
  simpl. by rewrite Hs.
Qed.

(** Every other event leaves the log alone or asks to close the window. *)
Lemma other_request_invoked s e :
  is_save_request e = false →
  invoked (handle toLowerCase e s) = invoked s
  ∨ invoked (handle toLowerCase e s) = invoked s ++ [close_toolbar_window].
Proof.
  destruct e as [p|v|key shift| | | | | |r]; simpl; try (by left).
  - intros _. left. unfold on_clip_data, clip_data_listener.
    by repeat case_match.
  - intros Hk.
    unfold CategoryInput_handleKeyDown, ClipToolbar_handleKeyDown,
      handleInputBlur.
    rewrite Hk. repeat (case_match; simpl; try (by left)); by right.
  - intros _. left. unfold handleInputBlur. by case_match.
  - intros _. by right.
  - intros _. left. by destruct r.
Qed.

Lemma saves_snoc_close l : saves (l ++ [close_toolbar_window]) = saves l.
Proof.
  unfold saves. rewrite filter_app. simpl.
  rewrite filter_cons_False by (simpl; tauto).
  by rewrite filter_nil, app_nil_r.
Qed.

(** *** Saving *)

(** Every save request, be it a click on the save button or Enter without
    Shift in the input, invokes [submit_clip] once, with the category the
    specification names computed from the cell [userCategory] (not from
    what the input displays): [userCategory] trimmed when that is not
    empty, else the suggestion that has arrived, else ["Other"]. When the
    suggestion ["url"] arrives and the user clicks save without editing,
    ["url"] is submitted. *)
Theorem save_submits_specified_category (s s' : Session) (e : Event) :
  is_save_request e = true →
  step toLowerCase s e = Some s' →
  invoked s'
  = invoked s ++ [submit_clip
                    (specified_category (userCategory s) (aiSuggestion s))
                    (clip <$> clipData s)]
  ∧ ∀ c : Clip,
      invoked <$> run toLowerCase initial
        [clip_data {| suggested_category := Some (lit "url"); clip := c |};
         save_click]
      = Some [submit_clip (lit "url") (Some c)].
Proof.
  intros He Hstep. split.
  - rewrite (step_invoked _ _ _ Hstep), save_request_invoked by done.
    by rewrite submitted_category_spec.
  - intros c. reflexivity.
Qed.

(** C2. In every state the toolbar can reach in which no suggestion is
    present and the user's category is empty, the save button is disabled
    and the input that carries the Enter accelerator is not rendered, so
    that no event the page can deliver invokes [submit_clip]. *)
Theorem no_save_before_suggestion_or_input (s s' : Session) (e : Event) :
  reachable toLowerCase s →
  truthy_opt (aiSuggestion s) = false →
  userCategory s = [] →
  step toLowerCase s e = Some s' →
  enabled save_click s = false
  ∧ (∀ key shiftKey, enabled (input_keydown key shiftKey) s = false)
  ∧ is_save_request e = false
  ∧ saves (invoked s') = saves (invoked s).
Proof.
  intros Hr Hai Huc Hstep.
  destruct (reachable_invariant s Hr) as ((_ & Ha & Hi) & Hb & He).
  assert (showInput s = false) as Hsh by (apply Hb; auto).
  assert (enabled save_click s = false) as Hsave.
  { simpl. unfold save_disabled. rewrite Hai. by destruct (isSaving s). }
  assert (∀ key shiftKey, enabled (input_keydown key shiftKey) s = false)
    as Hkey by (intros; simpl; by rewrite Hsh).
  assert (is_save_request e = false) as Hreq.
  { revert Hstep. unfold Toolbar.step.
    destruct e as [p|v|key shift| | | | | |r]; try done.
    - by rewrite Hkey.
    - by rewrite Hsave. }
  repeat split; try done.
  rewrite (step_invoked _ _ _ Hstep).
  destruct (other_request_invoked s e Hreq) as [-> | ->]; [done|].
  apply saves_snoc_close.
Qed.

(** C5. A cancel request, be it a click on the cancel button or Escape in
    the input, never invokes [submit_clip], in any state: it invokes
    [close_toolbar_window] or, for Escape on an unedited suggestion, only
    returns to the badge. The cancel button always asks to close. *)
Theorem cancel_never_submits (s s' : Session) (e : Event) :
  is_cancel_request e = true →
  step toLowerCase s e = Some s' →
  saves (invoked s') = saves (invoked s)
  ∧ (invoked s' = invoked s
     ∨ invoked s' = invoked s ++ [close_toolbar_window])
  ∧ (e = cancel_click → invoked s' = invoked s ++ [close_toolbar_window]).
Proof.
  intros He Hstep. rewrite (step_invoked _ _ _ Hstep).
  assert (is_save_request e = false) as Hreq.
  { destruct e as [p|v|key shift| | | | | |r]; try done.
    simpl in *. apply bool_decide_eq_true in He as ->. done. }
  split; [|split].
  - destruct (other_request_invoked s e Hreq) as [-> | ->]; [done|].
    apply saves_snoc_close.
  - by apply other_request_invoked.
  - by intros ->.
Qed.

(** C3. Only the save button is guarded by [isSaving]: it is disabled
    while a save is in flight. The Enter accelerator is not: with the
    suggestion ["url"] shown, the badge clicked and the input focused, a
    first Enter starts a save ([isSaving], one call in flight) and a second
    Enter, delivered before the first call is answered, invokes
    [submit_clip] again. *)
Theorem enter_twice_submits_twice (c : Clip) :
  let suggestion :=
    clip_data {| suggested_category := Some (lit "url"); clip := c |} in
  let enter := input_keydown (lit "Enter") false in
  (∀ s, isSaving s = true → enabled save_click s = false)
  ∧ (λ s, (isSaving s, in_flight s, invoked s))
      <$> run toLowerCase initial
            [suggestion; badge_click; input_focus; enter]
    = Some (true, 1, [submit_clip (lit "url") (Some c)])
  ∧ (λ s, (in_flight s, invoked s))
      <$> run toLowerCase initial
            [suggestion; badge_click; input_focus; enter; enter]
    = Some (2, [submit_clip (lit "url") (Some c);
                submit_clip (lit "url") (Some c)]).
Proof.
  split; [|split].
  - intros s Hs. simpl. unfold save_disabled. by rewrite Hs.
  - reflexivity.
  - reflexivity.
Qed.

(** Whatever the session holds, a suggestion that arrives becomes the
    [userCategory]. *)
Lemma settle_userCategory s :
  first_effect_fires s = false → userCategory (settle s) = userCategory s.
Proof.
  intros H. unfold Toolbar.settle.
  destruct (commit_without_first_effect s H) as [<- _].
  destruct (commit_without_first_effect _ (commit_first_effect s))
    as [<- _].
  destruct (commit_without_first_effect _ (commit_first_effect (commit s)))
    as [<- _].
  by destruct (commit_without_first_effect _
                 (commit_first_effect (commit (commit s)))) as [<- _].
Qed.

Lemma suggestion_overwrites_userCategory s payload sugg :
  suggested_category payload = Some sugg → sugg ≠ [] →
  ∃ s', step toLowerCase s (clip_data payload) = Some s'
        ∧ userCategory s' = sugg.
Proof.
  intros Hp Hs%truthy_true.
  exists (settle (on_clip_data payload s)). split; [reflexivity|].
  assert (on_clip_data payload s
          = set_userCategory sugg
              (set_isLoadingClipData false (set_clipData (Some payload) s)))
    as -> by (unfold on_clip_data, clip_data_listener; by rewrite Hp, Hs).
  rewrite settle_userCategory; [reflexivity|].
  unfold first_effect_fires, aiSuggestion. cbn. rewrite Hp, Hs. cbn.
  apply andb_false_r.
Qed.

(** C4. The ["clip-data"] listener reads the [userCategory] of the first
    render, so its test [!userCategory] always succeeds: a suggestion that
    arrives after the user has typed replaces the typed category. With
    ["work"] typed over the suggestion ["url"], a second suggestion
    ["code"] sets [userCategory] to ["code"]; a focused input still
    displays ["work"] while Enter submits ["code"], and an input that has
    lost the focus is overwritten as well. *)
Theorem late_suggestion_overwrites_typed_category (c : Clip) :
  let suggestion sugg :=
    clip_data {| suggested_category := Some (lit sugg); clip := c |} in
  let typing :=
    [suggestion "url"; badge_click; input_focus; input_change (lit "work")] in
  (λ s, (userCategory s, inputValue s)) <$> run toLowerCase initial typing
  = Some (lit "work", lit "work")
  ∧ (λ s, (userCategory s, inputValue s))
      <$> run toLowerCase initial (typing ++ [suggestion "code"])
    = Some (lit "code", lit "work")
  ∧ invoked
      <$> run toLowerCase initial
            (typing ++ [suggestion "code"; input_keydown (lit "Enter") false])
    = Some [submit_clip (lit "code") (Some c)]
  ∧ (λ s, (userCategory s, inputValue s))
      <$> run toLowerCase initial
            (typing ++ [input_blur; suggestion "code"])
    = Some (lit "code", lit "code").
Proof. repeat split; reflexivity. Qed.

(** C1. A save submits the category computed from the cell
    [userCategory], which the stale ["clip-data"] listener overwrites: the
    submitted category is not always the one the specification names for
    what the user typed. A suggestion saved unedited is submitted, and so
    is a category typed over it; but once ["work"] is typed over ["url"]
    and a second suggestion ["code"] arrives, the input still displays
    ["work"], the specification names ["work"], and both the Enter
    accelerator and the save button submit ["code"]. *)
Theorem save_after_late_suggestion_submits_suggestion (c : Clip) :
  let suggestion sugg :=
    clip_data {| suggested_category := Some (lit sugg); clip := c |} in
  let typing :=
    [suggestion "url"; badge_click; input_focus; input_change (lit "work")] in
  let enter := input_keydown (lit "Enter") false in
  invoked <$> run toLowerCase initial [suggestion "url"; save_click]
  = Some [submit_clip (lit "url") (Some c)]
  ∧ invoked <$> run toLowerCase initial (typing ++ [enter])
    = Some [submit_clip (lit "work") (Some c)]
  ∧ (λ s, (inputValue s, aiSuggestion s,
           specified_category (inputValue s) (aiSuggestion s)))
      <$> run toLowerCase initial (typing ++ [suggestion "code"])
    = Some (lit "work", Some (lit "code"), lit "work")
  ∧ invoked <$> run toLowerCase initial (typing ++ [suggestion "code"; enter])
    = Some [submit_clip (lit "code") (Some c)]
  ∧ invoked
      <$> run toLowerCase initial (typing ++ [suggestion "code"; save_click])
    = Some [submit_clip (lit "code") (Some c)].
Proof. repeat split; reflexivity. Qed.

End Engine.

(** *** Instances on concrete sessions *)

(** Before any suggestion the input is not rendered: neither typing nor a
    key press can be delivered, and the save button is disabled. *)
Example nothing_to_press_initially :
  step ascii_toLowerCase initial (input_keydown (lit "Enter") false) = None
  ∧ step ascii_toLowerCase initial (input_change (lit "x")) = None
  ∧ step ascii_toLowerCase initial badge_click = None
  ∧ step ascii_toLowerCase initial save_click = None.
Proof. repeat split; reflexivity. Qed.

(** Tab completes the typed prefix to the first matching category. *)
Example tab_completes :
  userCategory
    <$> run ascii_toLowerCase initial
          [clip_data example_payload; badge_click; input_focus;
           input_change (lit "Doc"); input_keydown (lit "Tab") false]
  = Some (lit "documentation").
Proof. reflexivity. Qed.

(** Escape on the unedited suggestion returns to the badge and invokes
    nothing. *)
Example escape_returns_to_badge :
  (λ s, (showInput s, invoked s))
    <$> run ascii_toLowerCase initial
          [clip_data example_payload; badge_click; input_focus;
           input_keydown (lit "Escape") false]
  = Some (false, []).
Proof. reflexivity. Qed.

Lemma save_submits_specified_category_witness :
  is_save_request save_click = true
  ∧ step ascii_toLowerCase suggested save_click
    = Some (settle (handleSave suggested))
  ∧ invoked (settle (handleSave suggested))
    = [submit_clip (lit "url") (Some example_clip)].
Proof.
  split; [reflexivity|]. split; [reflexivity|].
  apply (save_submits_specified_category ascii_toLowerCase suggested
           (settle (handleSave suggested)) save_click);
    reflexivity.
Defined.

Lemma no_save_before_suggestion_or_input_witness :
  reachable ascii_toLowerCase initial
  ∧ truthy_opt (aiSuggestion initial) = false
  ∧ userCategory initial = []
  ∧ step ascii_toLowerCase initial cancel_click
    = Some (settle (handleCancel initial))
  ∧ saves (invoked (settle (handleCancel initial))) = saves (invoked initial).
Proof.
  assert (reachable ascii_toLowerCase initial) as Hr by (by exists []).
  split; [exact Hr|]. do 3 (split; [reflexivity|]).
  apply (no_save_before_suggestion_or_input ascii_toLowerCase initial
           (settle (handleCancel initial)) cancel_click);
    [exact Hr|reflexivity..].
Defined.

Lemma cancel_never_submits_witness :
  is_cancel_request (input_keydown (lit "Escape") false) = true
  ∧ ∃ s', step ascii_toLowerCase editing (input_keydown (lit "Escape") false)
          = Some s'
          ∧ invoked s' = [close_toolbar_window]
          ∧ saves (invoked s') = saves (invoked editing).
Proof.
  split; [reflexivity|]. eexists.
  split; [vm_compute; reflexivity|]. split; [reflexivity|].
  apply (cancel_never_submits ascii_toLowerCase editing _
           (input_keydown (lit "Escape") false));
    [reflexivity | vm_compute; reflexivity].
Defined.

End ToolbarFacts.

(** ** The item list *)
Module AppFacts.
Import JS App.

Lemma default_last_cons {A} (d y : A) (l : list A) :
  default d (last (y :: l)) = default y (last l).
Proof. rewrite last_cons. by destruct (last l). Qed.

Section Events.
Context {Payload : Type}.

Lemma run_invoked (es : list (Event Payload)) : ∀ s,
  invoked (run s es)
  = invoked s ++ replicate (length (filter is_change es)) get_items.
Proof.
  induction es as [|e es IH]; intros s.
  - simpl. by rewrite app_nil_r.
  - change (run s (e :: es)) with (run (handle e s) es).
    rewrite IH, filter_cons.
    destruct e as [p|p|[l|err]]; simpl; try done;
      by rewrite <- app_assoc.
Qed.

Lemma run_items (es : list (Event Payload)) : ∀ s,
  items (run s es) = default (items s) (last (omap fetched es)).
Proof.
  induction es as [|e es IH]; intros s; [done|].
  unfold run in *. simpl. rewrite IH.
  destruct e as [p|p|[l|err]]; simpl; try done.
  by rewrite default_last_cons.
Qed.

(** C6. Both listeners ignore what the event carries and call [getItems]:
    one [get_items] command is invoked and the displayed [items] are not
    touched by the event itself; when the command resolves, its result
    replaces the whole list, whatever was displayed (when it rejects, the
    list stays). Over any sequence of events, [get_items] has been invoked
    once per change event, and the displayed list is the last list the
    backend returned. *)
Theorem events_refetch_full_list (p : Payload) (s : State)
    (es : list (Event Payload)) :
  handle (clip_saved p) s = getItems s
  ∧ handle (clip_deleted p) s = getItems s
  ∧ invoked (getItems s) = invoked s ++ [get_items]
  ∧ items (getItems s) = items s
  ∧ (∀ l, items (handle (Payload:=Payload) (get_items_settled (inl l)) s)
          = l)
  ∧ (∀ err,
       items (handle (Payload:=Payload) (get_items_settled (inr err)) s)
       = items s)
  ∧ invoked (run s es)
    = invoked s ++ replicate (length (filter is_change es)) get_items
  ∧ items (run s es) = default (items s) (last (omap fetched es)).
Proof.
  repeat split; try done.
  - apply run_invoked.
  - apply run_items.
Qed.

End Events.

End AppFacts.

(** ** Testing a hotkey *)
Module TestHotkeyFacts.
Import JS JSFacts SettingsDialog.

(** C7. [testHotkey] always returns normally. For a binding that is not
    blank it invokes [test_global_hotkey] once; when the command resolves,
    [testResult] becomes [success]; when it rejects, the error is caught,
    [testResult] becomes [error] and a toast shows the error. A blank
    binding (empty after [trim]) is answered by a toast alone, without any
    command invoked. *)
Theorem testHotkey_reports_result (backend : jsstring → option jsstring)
    (s : State) :
  ∃ s', testHotkey backend s = (Returned (), s')
    ∧ globalShortcut s' = globalShortcut s
    ∧ if truthy (trim (globalShortcut s))
      then invoked s' = invoked s ++ [test_global_hotkey (globalShortcut s)]
           ∧ isTesting s' = false
           ∧ match backend (globalShortcut s) with
             | None =>
                 testResult s' = Some success ∧ toasts s' = toasts s
             | Some err =>
                 testResult s' = Some error
                 ∧ toasts s' = toasts s ++ [lit "Invalid hotkey: " ++ err]
             end
      else invoked s' = invoked s
           ∧ testResult s' = testResult s
           ∧ isTesting s' = isTesting s
           ∧ toasts s'
             = toasts s ++ [lit "Please enter a hotkey combination first"].
Proof.
  unfold testHotkey.
  destruct (truthy (trim (globalShortcut s))) eqn:Hblank; simpl.
  - unfold mbind, M_bind, try_finally, try_catch, invoke; simpl.
    destruct (backend (globalShortcut s)) as [err|]; simpl;
      eexists; (split; [reflexivity|]); simpl; by repeat split.
  - eexists. split; [reflexivity|]. by repeat split.
Qed.

(** The function run against a backend that accepts every binding but
    ["Bogus"]. *)
Example testHotkey_accepted :
  let backend h :=
    if bool_decide (h = lit "Bogus") then Some (lit "unknown key") else None in
  let s := {| globalShortcut := lit "CommandOrControl+Shift+C";
              isTesting := false; testResult := None; toasts := [];
              console := []; timers := []; invoked := [] |} in
  testHotkey backend s
  = (Returned (),
     {| globalShortcut := lit "CommandOrControl+Shift+C";
        isTesting := false; testResult := Some success; toasts := [];
        console := []; timers := [(3000%N, clear_testResult)];
        invoked := [test_global_hotkey (lit "CommandOrControl+Shift+C")] |}).
Proof. reflexivity. Qed.

Example testHotkey_rejected :
  let backend h :=
    if bool_decide (h = lit "Bogus") then Some (lit "unknown key") else None in
  let s := {| globalShortcut := lit "Bogus";
              isTesting := false; testResult := None; toasts := [];
              console := []; timers := []; invoked := [] |} in
  testHotkey backend s
  = (Returned (),
     {| globalShortcut := lit "Bogus";
        isTesting := false; testResult := Some error;
        toasts := [lit "Invalid hotkey: unknown key"];
        console := [lit "Hotkey test failed: unknown key"];
        timers := [(5000%N, clear_testResult)];
        invoked := [test_global_hotkey (lit "Bogus")] |}).
Proof. reflexivity. Qed.

Example testHotkey_blank :
  let s := {| globalShortcut := lit "   ";
              isTesting := false; testResult := None; toasts := [];
              console := []; timers := []; invoked := [] |} in
  testHotkey (λ _, None) s
  = (Returned (),
     {| globalShortcut := lit "   ";
        isTesting := false; testResult := None;
        toasts := [lit "Please enter a hotkey combination first"];
        console := []; timers := []; invoked := [] |}).
Proof. reflexivity. Qed.

End TestHotkeyFacts.

(** ** Filtering the grid *)
Module GridFacts.
Import JS JSFacts App GridVirtualizer.

Section Engine.
Context (toLowerCase : jsstring → jsstring).

(** C8. The displayed list is a subsequence of the items: the order is
    kept and no item is added or repeated. With a search query that is
    empty or white space only and no category selected, it is the whole
    list. *)
Theorem displayedItems_subsequence (items : list ClipItem)
    (searchQuery : jsstring) (selectedCategories : list jsstring) :
  displayedItems toLowerCase items searchQuery selectedCategories
    `sublist_of` items
  ∧ (NoDup items →
     NoDup (displayedItems toLowerCase items searchQuery selectedCategories))
  ∧ (forallb isWhiteSpace searchQuery = true → selectedCategories = [] →
     displayedItems toLowerCase items searchQuery selectedCategories = items).
Proof.
  assert (displayedItems toLowerCase items searchQuery selectedCategories
            `sublist_of` items) as Hsub.
  { unfold displayedItems.
    destruct (truthy (trim searchQuery)), (bool_decide _); try done.
    - etrans; apply sublist_filter.
    - apply sublist_filter.
    - apply sublist_filter. }
  split; [done|]. split.
  - intros Hnd. by eapply sublist_NoDup.
  - intros Hq ->. unfold displayedItems.
    apply trim_nil_iff in Hq as ->. done.
Qed.

End Engine.

(** The filter on the sample items: a search matches the text of the
    first, a hyphenated query matches through the normalised text, and a
    selected category keeps the items that carry it. *)
Example displayedItems_search :
  id <$> displayedItems ascii_toLowerCase example_items (lit " HeLLo ") []
  = [lit "1"].
Proof. reflexivity. Qed.

Example displayedItems_tag :
  id <$> displayedItems ascii_toLowerCase example_items (lit "x") []
  = [lit "2"].
Proof. reflexivity. Qed.

Example displayedItems_category :
  id <$> displayedItems ascii_toLowerCase example_items (lit "")
           [lit "notes"; lit "url"]
  = [lit "1"].
Proof. reflexivity. Qed.

Lemma displayedItems_subsequence_witness :
  NoDup example_items
  ∧ forallb isWhiteSpace (lit "  ") = true
  ∧ displayedItems ascii_toLowerCase example_items (lit "  ") []
    = example_items
  ∧ NoDup (displayedItems ascii_toLowerCase example_items (lit "  ") []).
Proof.
  assert (NoDup example_items) as Hnd.
  { unfold example_items. apply NoDup_cons. split.
    - intros Hin%list_elem_of_singleton. discriminate Hin.
    - apply NoDup_singleton. }
  split; [exact Hnd|]. split; [reflexivity|].
  destruct (displayedItems_subsequence ascii_toLowerCase example_items
              (lit "  ") []) as (_ & Hn & Hall).
  split; [apply Hall; reflexivity | apply Hn, Hnd].
Defined.

End GridFacts.

(** ** Formatting a timestamp *)
Module UtilsFacts.
Import JS JSFacts Utils.

Lemma test_Forall2 (pattern : list Atom) (s : jsstring) :
  test pattern s = true ↔ Forall2 (λ a c, matches_atom a c = true) pattern s.
Proof.
  revert s. induction pattern as [|a pattern IH]; intros [|c s]; simpl.
  - split; [constructor|done].
  - split; [done|inversion 1].
  - split; [done|inversion 1].
  - rewrite andb_true_iff, IH. split.
    + intros [??]. by constructor.
    + by inversion 1.
Qed.

Lemma matches_digit (c : N) :
  matches_atom digit c = true ↔ (48 ≤ c ≤ 57)%N.
Proof. simpl. by rewrite andb_true_iff, !N.leb_le. Qed.

Lemma matches_char (c c' : N) : matches_atom (char c') c = true ↔ c = c'.
Proof. simpl. apply N.eqb_eq. Qed.

(** The pattern of the source accepts exactly the strings of the shape
    ["YYYY-MM-DD HH:MM:SS"]. *)
Lemma test_timestamp_pattern (s : jsstring) :
  test timestamp_pattern s = true ↔ is_timestamp_shape s.
Proof.
  rewrite test_Forall2. unfold is_timestamp_shape. split.
  - intros H. split; [symmetry; apply (Forall2_length _ _ _ H)|].
    intros i c Hc.
    destruct (Forall2_lookup_r _ _ _ _ _ H Hc) as (a & Ha & Hm).
    do 19 (destruct i as [|i];
           [injection Ha as <-; vm_compute bool_decide; cbv iota;
            first [by apply matches_char | by apply matches_digit]|]).
    done.
  - intros [Hlen Hs]. apply Forall2_same_length_lookup_2; [done|].
    intros i a c Ha Hc. specialize (Hs i c Hc). revert Hs.
    do 19 (destruct i as [|i];
           [injection Ha as <-; vm_compute bool_decide; cbv iota;
            first [by apply matches_char | by apply matches_digit]|]).
    done.
Qed.

(** The numbers [!dateStr] rejects are the two zeros and [NaN]. *)
Lemma number_ToBoolean_false (n : float) :
  number_ToBoolean n = false ↔ (n = 0 ∨ n = -0 ∨ n = nan)%float.
Proof.
  unfold number_ToBoolean. split.
  - rewrite !FloatAxioms.eqb_spec. intros H. rewrite <- (FloatAxioms.SF2Prim_Prim2SF n).
    destruct (Prim2SF n) as [sign|sign| |sign m e].
    + destruct sign; [right; left|left]; reflexivity.
    + destruct sign; discriminate H.
    + right; right; reflexivity.
    + exfalso. revert H. unfold SFeqb. cbn [SFcompare].
      destruct sign; simpl; rewrite Z.compare_refl; simpl;
        rewrite Pos.compare_refl; simpl; discriminate.
  - intros [-> | [-> | ->]]; reflexivity.
Qed.

Lemma timestamp_shape_nonempty (s : jsstring) : is_timestamp_shape s → s ≠ [].
Proof. intros [Hlen _] ->. discriminate Hlen. Qed.

Section Engine.
(** The engine and date-fns: [new Date(number)], [new Date(string)] and
    [format] on a valid date. *)
Context (Date_of_number : float → Date).
Context (Date_of_string : jsstring → Date).
Context (format : Z → jsstring → jsstring).

(** C9. [formatDateTime] returns [undefined] exactly when its argument is
    absent or falsy (no argument, the empty string, the number [0], [-0]
    or [NaN]) or the date built from it is invalid; otherwise it returns
    the string [format] produces for that date. The date is the [Date]
    object itself, [new Date(n)] for a number, and for a string the parse
    of the string, with ["Z"] appended when the string has the shape
    ["YYYY-MM-DD HH:MM:SS"] and unchanged otherwise. *)
Theorem formatDateTime_undefined_iff (is24Hour : bool) :
  let result dateStr :=
    formatDateTime number_ToBoolean Date_of_number Date_of_string format
      dateStr is24Hour in
  let formatted (date : Date) :=
    match date with
    | Some t =>
        Some (format t (if is24Hour then lit "MM/dd/yyyy HH:mm:ss"
                        else lit "MM/dd/yyyy hh:mm:ss a"))
    | None => None
    end in
  result arg_undefined = None
  ∧ result (arg_string []) = None
  ∧ (∀ n, (n = 0 ∨ n = -0 ∨ n = nan)%float → result (arg_number n) = None)
  ∧ (∀ n, n ≠ 0%float → n ≠ (-0)%float → n ≠ nan →
       result (arg_number n) = formatted (Date_of_number n))
  ∧ (∀ d, result (arg_Date d) = formatted d)
  ∧ (∀ s, is_timestamp_shape s →
       result (arg_string s) = formatted (Date_of_string (s ++ lit "Z")))
  ∧ (∀ s, s ≠ [] → ¬ is_timestamp_shape s →
       result (arg_string s) = formatted (Date_of_string s))
  ∧ (∀ dateStr,
       result dateStr = None
       ↔ match dateStr with
         | arg_undefined => True
         | arg_string s =>
             s = []
             ∨ (is_timestamp_shape s ∧ Date_of_string (s ++ lit "Z") = None)
             ∨ (¬ is_timestamp_shape s ∧ Date_of_string s = None)
         | arg_number n =>
             (n = 0 ∨ n = -0 ∨ n = nan)%float ∨ Date_of_number n = None
         | arg_Date d => d = None
         end).
Proof.
  intros result formatted.
  assert (∀ date, formatted date = None ↔ date = None) as Hformatted
    by (by intros [t|]).
  assert (∀ n, (n = 0 ∨ n = -0 ∨ n = nan)%float → result (arg_number n) = None)
    as Hfalsy.
  { intros n Hn%number_ToBoolean_false. unfold result, formatDateTime.
    simpl. by rewrite Hn. }
  assert (∀ n, number_ToBoolean n = true →
            result (arg_number n) = formatted (Date_of_number n)) as Htruthy.
  { intros n Hn. unfold result, formatDateTime. simpl. rewrite Hn. simpl.
    destruct (Date_of_number n); [by destruct is24Hour|done]. }
  assert (∀ d, result (arg_Date d) = formatted d) as HDate.
  { intros [t|]; [|done]. unfold result, formatDateTime. simpl.
    by destruct is24Hour. }
  assert (∀ s, is_timestamp_shape s →
            result (arg_string s) = formatted (Date_of_string (s ++ lit "Z")))
    as Hshape.
  { intros s Hs. pose proof (timestamp_shape_nonempty s Hs) as Hne.
    apply test_timestamp_pattern in Hs.
    unfold result, formatDateTime, falsy, to_date.
    rewrite (proj2 (truthy_true s) Hne), Hs. cbn [negb].
    destruct (Date_of_string _); [by destruct is24Hour|done]. }
  assert (∀ s, s ≠ [] → ¬ is_timestamp_shape s →
            result (arg_string s) = formatted (Date_of_string s)) as Hother.
  { intros s Hne Hs. unfold result, formatDateTime, falsy, to_date.
    rewrite (proj2 (truthy_true s) Hne). cbn [negb].
    destruct (test timestamp_pattern s) eqn:Ht;
      [by apply test_timestamp_pattern in Ht|].
    destruct (Date_of_string _); [by destruct is24Hour|done]. }
  split; [done|]. split; [done|]. split; [exact Hfalsy|].
  split.
  { intros n H0 Hm Hnan. apply Htruthy.
    destruct (number_ToBoolean n) eqn:Hn; [done|].
    apply number_ToBoolean_false in Hn as [?|[?|?]]; done. }
  split; [exact HDate|]. split; [exact Hshape|]. split; [exact Hother|].
  intros [|s|d|n].
  - done.
  - destruct s as [|c s]; [by split; [left|]|].
    destruct (test timestamp_pattern (c :: s)) eqn:Ht.
    + apply test_timestamp_pattern in Ht. rewrite (Hshape _ Ht), Hformatted.
      split; [by right; left|]. intros [?|[[_ ?]|[? _]]]; done.
    + assert (¬ is_timestamp_shape (c :: s)) as Hs.
      { intros Hs%test_timestamp_pattern. by rewrite Hs in Ht. }
      rewrite Hother by done. rewrite Hformatted.
      split; [by right; right|]. intros [?|[[? _]|[_ ?]]]; done.
  - by rewrite HDate, Hformatted.
  - destruct (number_ToBoolean n) eqn:Hn.
    + rewrite (Htruthy _ Hn), Hformatted. split; [by right|].
      intros [H%number_ToBoolean_false|?]; [by rewrite H in Hn|done].
    + apply number_ToBoolean_false in Hn. rewrite (Hfalsy _ Hn).
      split; [by left|done].
Qed.

End Engine.

Example formatDateTime_absent :
  formatDateTime (λ n : Z, negb (n =? 0)%Z) Some example_parse (λ _ fmt, fmt)
    arg_undefined false
  = None.
Proof. reflexivity. Qed.

Example formatDateTime_zero :
  formatDateTime (λ n : Z, negb (n =? 0)%Z) Some example_parse (λ _ fmt, fmt)
    (arg_number 0%Z) true
  = None.
Proof. reflexivity. Qed.

Example formatDateTime_invalid :
  formatDateTime (λ n : Z, negb (n =? 0)%Z) Some example_parse (λ _ fmt, fmt)
    (arg_string (lit "yesterday")) true
  = None.
Proof. reflexivity. Qed.

Example timestamp_pattern_rejects_suffix :
  test timestamp_pattern (lit "2024-01-01 10:20:30Z") = false.
Proof. reflexivity. Qed.

Lemma formatDateTime_undefined_iff_witness :
  let run :=
    formatDateTime number_ToBoolean (λ _, Some 0%Z) example_parse
      (λ _ fmt, fmt) in
  is_timestamp_shape (lit "2024-01-01 10:20:30")
  ∧ run (arg_string (lit "2024-01-01 10:20:30")) false
    = Some (lit "MM/dd/yyyy hh:mm:ss a")
  ∧ run (arg_number (-0)%float) false = None
  ∧ run (arg_number 1700000000000%float) false
    = Some (lit "MM/dd/yyyy hh:mm:ss a")
  ∧ ¬ is_timestamp_shape (lit "yesterday")
  ∧ run (arg_string (lit "yesterday")) false = None.
Proof.
  assert (is_timestamp_shape (lit "2024-01-01 10:20:30")) as Hshape
    by (by apply test_timestamp_pattern).
  assert (¬ is_timestamp_shape (lit "yesterday")) as Hother
    by (by intros H%test_timestamp_pattern).
  destruct (formatDateTime_undefined_iff (λ _, Some 0%Z) example_parse
              (λ _ fmt, fmt) false)
    as (_ & _ & Hfalsy & Htruthy & _ & Hz & Hs & _).
  split; [exact Hshape|]. split; [exact (Hz _ Hshape)|].
  split; [apply Hfalsy; right; left; reflexivity|].
  split; [apply Htruthy; intros H; vm_compute in H; discriminate H|].
  split; [exact Hother|]. apply Hs; [discriminate|exact Hother].
Defined.

End UtilsFacts.

(** ** Formatting a hotkey *)
Module FormatHotkeyFacts.
Import JS JSFacts SettingsDialog.

Lemma bool_decide_elem_of_cons `{EqDecision A} (x y : A) (l : list A) :
  bool_decide (x ∈ y :: l) = bool_decide (x = y) || bool_decide (x ∈ l).
Proof.
  apply eq_true_iff_eq.
  rewrite orb_true_iff, !bool_decide_eq_true. apply elem_of_cons.
Qed.

Lemma bool_decide_elem_of_nil {A} `{EqDecision A} (x : A) :
  bool_decide (x ∈ @nil A) = false.
Proof. apply bool_decide_eq_false. apply not_elem_of_nil. Qed.

Lemma elem_of_push_once (tok t : jsstring) (modifiers : list jsstring) :
  tok ∈ push_once t modifiers ↔ tok = t ∨ tok ∈ modifiers.
Proof.
  unfold push_once. case_bool_decide as Ht.
  - split; [by right|]. by intros [->|?].
  - rewrite elem_of_app, list_elem_of_singleton. tauto.
Qed.

Lemma NoDup_push_once (t : jsstring) (modifiers : list jsstring) :
  NoDup modifiers → NoDup (push_once t modifiers).
Proof.
  intros Hnd. unfold push_once. case_bool_decide as Ht; [done|].
  apply NoDup_app. split; [done|]. split; [|apply NoDup_singleton].
  intros x Hx ->%list_elem_of_singleton. done.
Qed.

Section Engine.
Context (toLowerCase toUpperCase : jsstring → jsstring).

(** One turn of the loop, by the class of the key. *)
Lemma visit_spec (acc : list jsstring * list jsstring) (key : jsstring) :
  visit toLowerCase toUpperCase acc key
  = match modifier_token toLowerCase key with
    | Some tok => (push_once tok acc.1, acc.2)
    | None =>
        if is_regular_key toLowerCase key
        then (acc.1, acc.2 ++ [toUpperCase key])
        else acc
    end.
Proof.
  unfold visit, is_regular_key, modifier_token. simpl.
  rewrite !bool_decide_elem_of_cons, !bool_decide_elem_of_nil.
  repeat (case_bool_decide; simpl; try done).
Qed.

Lemma collect_snoc (keys : list jsstring) (key : jsstring) :
  collect toLowerCase toUpperCase (keys ++ [key])
  = visit toLowerCase toUpperCase (collect toLowerCase toUpperCase keys) key.
Proof. unfold collect. by rewrite foldl_snoc. Qed.

Lemma collect_modifiers (keys : list jsstring) :
  NoDup (collect toLowerCase toUpperCase keys).1
  ∧ ∀ tok, tok ∈ (collect toLowerCase toUpperCase keys).1
           ↔ ∃ key, key ∈ keys ∧ modifier_token toLowerCase key = Some tok.
Proof.
  induction keys as [|key keys [IHnd IHin]] using rev_ind.
  - split; [constructor|]. intros tok. split.
    + by intros ?%elem_of_nil.
    + by intros (key & ?%elem_of_nil & _).
  - rewrite collect_snoc, visit_spec.
    destruct (modifier_token toLowerCase key) as [t|] eqn:Hkey.
    + split; [by apply NoDup_push_once|]. intros tok. simpl.
      rewrite elem_of_push_once, IHin. split.
      * intros [-> | (k & Hk & Htok)].
        -- exists key. split; [|done]. apply elem_of_app.
           right. by apply list_elem_of_singleton.
        -- exists k. split; [|done]. apply elem_of_app. by left.
      * intros (k & [Hk | ->%list_elem_of_singleton]%elem_of_app & Htok).
        -- right. by exists k.
        -- left. congruence.
    + assert ((if is_regular_key toLowerCase key
               then ((collect toLowerCase toUpperCase keys).1,
                     (collect toLowerCase toUpperCase keys).2
                       ++ [toUpperCase key])
               else collect toLowerCase toUpperCase keys).1
              = (collect toLowerCase toUpperCase keys).1) as ->
        by (by destruct (is_regular_key toLowerCase key)).
      split; [done|]. intros tok. rewrite IHin. split.
      * intros (k & Hk & Htok). exists k. split; [|done].
        apply elem_of_app. by left.
      * intros (k & [Hk | ->%list_elem_of_singleton]%elem_of_app & Htok).
        -- by exists k.
        -- congruence.
Qed.

Lemma collect_regularKeys (keys : list jsstring) :
  (collect toLowerCase toUpperCase keys).2
  = toUpperCase <$> filter (is_regular_key toLowerCase) keys.
Proof.
  induction keys as [|key keys IH] using rev_ind; [done|].
  rewrite collect_snoc, visit_spec, filter_app, fmap_app, <- IH.
  destruct (is_regular_key toLowerCase key) eqn:Hreg.
  - assert (modifier_token toLowerCase key = None) as ->.
    { unfold is_regular_key in Hreg.
      by apply andb_true_iff in Hreg as [?%bool_decide_eq_true _]. }
    rewrite filter_cons_True by (by apply Is_true_true). done.
  - rewrite filter_cons_False by (by apply Is_true_false).
    rewrite filter_nil. simpl. rewrite app_nil_r.
    by destruct (modifier_token toLowerCase key).
Qed.

(** C10. The output joins with ["+"] the modifier tokens followed by the
    regular keys. A token occurs at most once; it occurs exactly when some
    recorded key stands for it, Control and Meta (and their aliases) both
    standing for ["CommandOrControl"]. The regular keys are the recorded
    single characters and named keys, in recording order, uppercased. A
    key of neither class leaves the output as if it had not been
    recorded. *)
Theorem formatHotkey_tokens (recordedKeys : list jsstring) :
  let modifiers := (collect toLowerCase toUpperCase recordedKeys).1 in
  let regularKeys := (collect toLowerCase toUpperCase recordedKeys).2 in
  formatHotkey toLowerCase toUpperCase recordedKeys
  = join (lit "+") (modifiers ++ regularKeys)
  ∧ NoDup modifiers
  ∧ (∀ tok, tok ∈ modifiers
            ↔ ∃ key, key ∈ recordedKeys
                     ∧ modifier_token toLowerCase key = Some tok)
  ∧ (∀ key, toLowerCase key = lit "control" ∨ toLowerCase key = lit "meta" →
            modifier_token toLowerCase key = Some (lit "CommandOrControl"))
  ∧ regularKeys
    = toUpperCase <$> filter (is_regular_key toLowerCase) recordedKeys
  ∧ (∀ before key after,
       recordedKeys = before ++ key :: after →
       modifier_token toLowerCase key = None →
       is_regular_key toLowerCase key = false →
       formatHotkey toLowerCase toUpperCase recordedKeys
       = formatHotkey toLowerCase toUpperCase (before ++ after)).
Proof.
  simpl. split; [done|].
  destruct (collect_modifiers recordedKeys) as [Hnd Hin].
  split; [done|]. split; [done|]. split; [|split].
  - intros key Hkey. unfold modifier_token. simpl.
    rewrite !bool_decide_elem_of_cons.
    destruct Hkey as [-> | ->]; done.
  - apply collect_regularKeys.
  - intros before key after -> Hmod Hreg.
    unfold formatHotkey, collect. rewrite !foldl_app. simpl.
    by rewrite visit_spec, Hmod, Hreg.
Qed.

End Engine.

Lemma formatHotkey_tokens_witness :
  modifier_token ascii_toLowerCase (lit "Unidentified") = None
  ∧ is_regular_key ascii_toLowerCase (lit "Unidentified") = false
  ∧ formatHotkey ascii_toLowerCase ascii_toUpperCase
      (lit <$> ["Control"; "Meta"; "Unidentified"; "Shift"; "a"; "F1"]%string)
    = formatHotkey ascii_toLowerCase ascii_toUpperCase
        (lit <$> ["Control"; "Meta"; "Shift"; "a"; "F1"]%string)
  ∧ formatHotkey ascii_toLowerCase ascii_toUpperCase
      (lit <$> ["Control"; "Meta"; "Shift"; "a"; "F1"]%string)
    = lit "CommandOrControl+Shift+A+F1".
Proof.
  split; [reflexivity|]. split; [reflexivity|]. split; [|reflexivity].
  destruct (formatHotkey_tokens ascii_toLowerCase ascii_toUpperCase
              (lit <$> ["Control"; "Meta"; "Unidentified"; "Shift"; "a";
                        "F1"]%string))
    as (_ & _ & _ & _ & _ & Hdrop).
  exact (Hdrop (lit <$> ["Control"; "Meta"]%string) (lit "Unidentified")
               (lit <$> ["Shift"; "a"; "F1"]%string)
               eq_refl eq_refl eq_refl).
Defined.

End FormatHotkeyFacts.

(** ** Selecting categories *)
Module GridControlsFacts.
Import JS JSFacts App GridVirtualizer GridControls.

(** Toggling a category flips its membership in the selection and leaves
    every other category as it was; a selection without repetition stays
    without repetition. *)
Theorem toggleCategory_membership (category : jsstring)
    (prev : list jsstring) :
  (category ∈ toggleCategory category prev ↔ category ∉ prev)
  ∧ (∀ c, c ≠ category → c ∈ toggleCategory category prev ↔ c ∈ prev)
  ∧ (NoDup prev → NoDup (toggleCategory category prev)).
Proof.
  unfold toggleCategory. case_bool_decide as Hin.
  - split; [|split].
    + rewrite list_elem_of_filter. tauto.
    + intros c Hc. rewrite list_elem_of_filter. tauto.
    + apply NoDup_filter.
  - split; [|split].
    + rewrite elem_of_app, list_elem_of_singleton. tauto.
    + intros c Hc. rewrite elem_of_app, list_elem_of_singleton. tauto.
    + intros Hnd. apply NoDup_app. split; [done|].
      split; [|apply NoDup_singleton].
      intros x Hx ->%list_elem_of_singleton. done.
Qed.

Lemma toggleCategory_membership_witness :
  NoDup [lit "notes"; lit "url"]
  ∧ toggleCategory (lit "notes") [lit "notes"; lit "url"] = [lit "url"]
  ∧ NoDup (toggleCategory (lit "notes") [lit "notes"; lit "url"])
  ∧ (lit "url" ∈ toggleCategory (lit "notes") [lit "notes"; lit "url"]).
Proof.
  assert (NoDup [lit "notes"; lit "url"]) as Hnd.
  { apply NoDup_cons. split; [|apply NoDup_singleton].
    intros H%list_elem_of_singleton. discriminate H. }
  destruct (toggleCategory_membership (lit "notes") [lit "notes"; lit "url"])
    as (_ & Hother & Hkeep).
  split; [exact Hnd|]. split; [reflexivity|]. split; [exact (Hkeep Hnd)|].
  apply Hother; [discriminate|]. apply list_elem_of_further, list_elem_of_here.
Defined.

Lemma filter_ne_not_in (category : jsstring) (l : list jsstring) :
  category ∉ l → filter (λ c, c ≠ category) l = l.
Proof.
  induction l as [|x l IH]; [done|].
  intros [Hx Hl]%not_elem_of_cons.
  rewrite filter_cons_True by done. by rewrite IH.
Qed.

(** Toggling twice: a category that was not selected leaves the selection
    exactly as it was; one that was selected ends up selected again, moved
    to the end. In both cases the same categories are selected. *)
Theorem toggleCategory_twice (category : jsstring) (prev : list jsstring) :
  (category ∉ prev →
   toggleCategory category (toggleCategory category prev) = prev)
  ∧ (category ∈ prev →
     toggleCategory category (toggleCategory category prev)
     = filter (λ c, c ≠ category) prev ++ [category])
  ∧ (∀ c, c ∈ toggleCategory category (toggleCategory category prev)
          ↔ c ∈ prev).
Proof.
  split; [|split].
  - intros Hin. unfold toggleCategory at 2.
    rewrite bool_decide_eq_false_2 by done.
    unfold toggleCategory. rewrite bool_decide_eq_true_2.
    + rewrite filter_app, filter_ne_not_in by done.
      rewrite filter_cons_False by (intros H; by apply H).
      by rewrite filter_nil, app_nil_r.
    + apply elem_of_app. right. by apply list_elem_of_singleton.
  - intros Hin. unfold toggleCategory at 2.
    rewrite bool_decide_eq_true_2 by done.
    unfold toggleCategory. rewrite bool_decide_eq_false_2; [done|].
    rewrite list_elem_of_filter. tauto.
  - intros c. destruct (decide (c = category)) as [->|Hc].
    + destruct (toggleCategory_membership category
                  (toggleCategory category prev)) as (-> & _ & _).
      destruct (toggleCategory_membership category prev) as (-> & _ & _).
      destruct (decide (category ∈ prev)); tauto.
    + destruct (toggleCategory_membership category
                  (toggleCategory category prev)) as (_ & -> & _); [|done].
      by destruct (toggleCategory_membership category prev) as (_ & -> & _).
Qed.

Lemma toggleCategory_twice_witness :
  (lit "url" ∉ [lit "notes"])
  ∧ toggleCategory (lit "url") (toggleCategory (lit "url") [lit "notes"])
    = [lit "notes"]
  ∧ toggleCategory (lit "notes")
      (toggleCategory (lit "notes") [lit "notes"; lit "url"])
    = [lit "url"; lit "notes"].
Proof.
  assert (lit "url" ∉ [lit "notes"]) as Hout
    by (intros H%list_elem_of_singleton; discriminate H).
  assert (lit "notes" ∈ [lit "notes"; lit "url"]) as Hin
    by apply list_elem_of_here.
  split; [exact Hout|]. split.
  - exact (proj1 (toggleCategory_twice (lit "url") [lit "notes"]) Hout).
  - exact (proj1 (proj2 (toggleCategory_twice (lit "notes")
                           [lit "notes"; lit "url"])) Hin).
Defined.

Section Engine.
Context (toLowerCase : jsstring → jsstring).

(** The displayed list depends on the selection only through which
    categories are selected: their order and repetitions do not matter.
    In particular toggling a category twice leaves the display as it
    was. *)
Theorem displayedItems_selection_as_set (items : list ClipItem)
    (searchQuery : jsstring) (selected selected' : list jsstring) :
  (∀ c, c ∈ selected ↔ c ∈ selected') →
  displayedItems toLowerCase items searchQuery selected
  = displayedItems toLowerCase items searchQuery selected'
  ∧ ∀ category,
      displayedItems toLowerCase items searchQuery
        (toggleCategory category (toggleCategory category selected))
      = displayedItems toLowerCase items searchQuery selected.
Proof.
  assert (∀ sel sel' : list jsstring, (∀ c, c ∈ sel ↔ c ∈ sel') →
            displayedItems toLowerCase items searchQuery sel
            = displayedItems toLowerCase items searchQuery sel') as Hset.
  { intros sel sel' Hsame. unfold displayedItems.
    assert (bool_decide (0 < length sel) = bool_decide (0 < length sel'))
      as ->.
    { apply bool_decide_ext. destruct sel as [|c sel], sel' as [|c' sel'];
        simpl; try (split; lia).
      - exfalso. eapply not_elem_of_nil, Hsame, list_elem_of_here.
      - exfalso. eapply not_elem_of_nil, Hsame, list_elem_of_here. }
    case_bool_decide; [|done].
    apply list_filter_iff. intros item. unfold matches_category.
    destruct (category item) as [c|]; [|done].
    destruct (truthy c); simpl; [|done].
    rewrite !bool_decide_spec. apply Hsame. }
  intros Hsame. split; [by apply Hset|].
  intros category. apply Hset. apply toggleCategory_twice.
Qed.

End Engine.

Lemma displayedItems_selection_as_set_witness :
  (∀ c, c ∈ [lit "notes"; lit "url"] ↔ c ∈ [lit "url"; lit "notes"; lit "url"])
  ∧ displayedItems ascii_toLowerCase example_items (lit "")
      [lit "notes"; lit "url"]
    = displayedItems ascii_toLowerCase example_items (lit "")
        [lit "url"; lit "notes"; lit "url"].
Proof.
  assert (∀ c, c ∈ [lit "notes"; lit "url"]
               ↔ c ∈ [lit "url"; lit "notes"; lit "url"]) as Hsame.
  { intros c. rewrite !elem_of_cons. tauto. }
  split; [exact Hsame|].
  exact (proj1 (displayedItems_selection_as_set ascii_toLowerCase
                  example_items (lit "") _ _ Hsame)).
Defined.

End GridControlsFacts.

(** ** More on the displayed list *)
Module DisplayedItemsFacts.
Import JS JSFacts App GridVirtualizer GridControls.

Lemma filter_sublist_mono {A} (P Q : A → Prop)
    `{!∀ x, Decision (P x)} `{!∀ x, Decision (Q x)} (l : list A) :
  (∀ x, P x → Q x) → filter P l `sublist_of` filter Q l.
Proof.
  intros HPQ. induction l as [|x l IH]; [done|].
  rewrite !filter_cons. destruct (decide (P x)) as [HP|HP].
  - rewrite decide_True by auto. by apply sublist_skip.
  - destruct (decide (Q x)); [by apply sublist_cons|done].
Qed.

Section Engine.
Context (toLowerCase : jsstring → jsstring).

Lemma displayedItems_filter (items : list ClipItem) (searchQuery : jsstring)
    (selected : list jsstring) :
  displayedItems toLowerCase items searchQuery selected
  = filter (is_displayed toLowerCase searchQuery selected) items.
Proof.
  unfold displayedItems, is_displayed.
  destruct (truthy (trim searchQuery)), (bool_decide (0 < length selected));
    simpl.
  - rewrite list_filter_filter. apply list_filter_iff. intros item.
    rewrite andb_True. tauto.
  - apply list_filter_iff. intros item. rewrite andb_True. simpl. tauto.
  - done.
  - induction items as [|x items IH]; [done|].
    rewrite filter_cons_True by done. by rewrite <- IH.
Qed.

(** Searching and selecting only ever narrow the display: the list shown
    under a query is a subsequence of the list shown without it, the list
    shown under a selection is a subsequence of the list shown with no
    category selected, and adding categories to a selection that is not
    empty only adds items. *)
Theorem displayedItems_narrows (items : list ClipItem)
    (searchQuery : jsstring) (selected selected' : list jsstring) :
  displayedItems toLowerCase items searchQuery selected
    `sublist_of` displayedItems toLowerCase items [] selected
  ∧ displayedItems toLowerCase items searchQuery selected
      `sublist_of` displayedItems toLowerCase items searchQuery []
  ∧ (selected ≠ [] → selected ⊆ selected' →
     displayedItems toLowerCase items searchQuery selected
       `sublist_of` displayedItems toLowerCase items searchQuery selected').
Proof.
  rewrite !displayedItems_filter. split; [|split].
  - apply filter_sublist_mono. intros item. unfold is_displayed.
    rewrite !andb_True. simpl. tauto.
  - apply filter_sublist_mono. intros item. unfold is_displayed.
    rewrite !andb_True. simpl. tauto.
  - intros Hne Hsub. apply filter_sublist_mono. intros item.
    unfold is_displayed. rewrite !andb_True. intros [Hq Hc]. split; [done|].
    rewrite bool_decide_eq_true_2 in Hc
      by (destruct selected; [done|simpl; lia]).
    simpl in Hc. apply orb_True. right.
    unfold matches_category in *. destruct (category item) as [c|]; [|done].
    apply andb_True in Hc as [Ht Hc]. apply andb_True. split; [done|].
    apply bool_decide_spec in Hc. apply bool_decide_spec. by apply Hsub.
Qed.

(** With at least one category selected, every displayed item carries a
    non-empty category that is selected; an item without a category is not
    displayed. *)
Theorem displayedItems_selected_category (items : list ClipItem)
    (searchQuery : jsstring) (selected : list jsstring) (item : ClipItem) :
  selected ≠ [] →
  item ∈ displayedItems toLowerCase items searchQuery selected →
  item ∈ items
  ∧ ∃ c, category item = Some c ∧ c ≠ [] ∧ c ∈ selected.
Proof.
  intros Hne. rewrite displayedItems_filter, list_elem_of_filter.
  unfold is_displayed. rewrite andb_True. intros [[_ Hc] Hin].
  split; [done|].
  rewrite bool_decide_eq_true_2 in Hc
    by (destruct selected; [done|simpl; lia]).
  simpl in Hc. unfold matches_category in Hc.
  destruct (category item) as [c|]; [|done].
  apply andb_True in Hc as [Ht Hc]. exists c. split; [done|]. split.
  - apply truthy_true. by destruct (truthy c).
  - by apply bool_decide_spec in Hc.
Qed.

(** Filtering is a per-item decision: the display of a concatenation is the
    concatenation of the displays, and filtering what is displayed once
    more changes nothing. *)
Theorem displayedItems_per_item (items items' : list ClipItem)
    (searchQuery : jsstring) (selected : list jsstring) :
  displayedItems toLowerCase (items ++ items') searchQuery selected
  = displayedItems toLowerCase items searchQuery selected
    ++ displayedItems toLowerCase items' searchQuery selected
  ∧ displayedItems toLowerCase
      (displayedItems toLowerCase items searchQuery selected)
      searchQuery selected
    = displayedItems toLowerCase items searchQuery selected.
Proof.
  rewrite !displayedItems_filter. split; [apply filter_app|].
  rewrite list_filter_filter. apply list_filter_iff. tauto.
Qed.

End Engine.

Lemma displayedItems_narrows_witness :
  [lit "notes"] ≠ []
  ∧ [lit "notes"] ⊆ [lit "notes"; lit "url"]
  ∧ displayedItems ascii_toLowerCase example_items (lit "hello")
      [lit "notes"]
      `sublist_of`
    displayedItems ascii_toLowerCase example_items (lit "hello")
      [lit "notes"; lit "url"].
Proof.
  assert ([lit "notes"] ⊆ [lit "notes"; lit "url"]) as Hsub.
  { intros c ->%list_elem_of_singleton. apply list_elem_of_here. }
  split; [discriminate|]. split; [exact Hsub|].
  refine (proj2 (proj2 (displayedItems_narrows ascii_toLowerCase
                          example_items (lit "hello") _ _)) _ Hsub).
  discriminate.
Defined.

Lemma displayedItems_selected_category_witness :
  [lit "notes"] ≠ []
  ∧ (∀ item,
       item ∈ displayedItems ascii_toLowerCase example_items (lit "")
                [lit "notes"] →
       ∃ c, category item = Some c ∧ c ≠ [] ∧ c ∈ [lit "notes"]).
Proof.
  split; [discriminate|]. intros item Hitem.
  refine (proj2 (displayedItems_selected_category ascii_toLowerCase
                   example_items (lit "") [lit "notes"] item _ Hitem)).
  discriminate.
Defined.

End DisplayedItemsFacts.

(** ** Deleting a clip *)
Module GridDeleteFacts.
Import JS App GridDelete.

(** *** Counting the pending calls of an instance *)





Section Events.
Context {Payload : Type}.

(** *** The invariant *)














(** The guard [isDeleting] does not outlive a refresh. With two items
    listed, the first card clicked and its delete button pressed, a
    ["clip-saved"] event refreshes the list while [delete_item] is still
    pending: the grid is mounted anew with [isDeleting] unset, and a click
    on the second card and on its delete button invokes [delete_item] a
    second time. *)
Theorem refresh_resets_delete_guard (first second : ClipItem)
    (event : Payload) :
  let fetched := inl [first; second] in
  (λ s, (isDeleting <$> grid s, invoked s, length (deleting s)))
    <$> run initial
          [get_items_settled 0 fetched; card_click 0; delete_click;
           app_event (clip_saved event); get_items_settled 0 fetched]
  = Some (Some false, [delete_item (id first)], 1)
  ∧ (λ s, (invoked s, length (deleting s)))
      <$> run initial
            [get_items_settled 0 fetched; card_click 0; delete_click;
             app_event (clip_saved event); get_items_settled 0 fetched;
             card_click 1; delete_click]
    = Some ([delete_item (id first); delete_item (id second)], 2).
Proof. split; reflexivity. Qed.

End Events.


End GridDeleteFacts.

(** ** The grid of cards *)
Module ClipCardsFacts.
Import JS App ClipCards.

Lemma ceil_div_bounds (a b : nat) :
  0 < b → a ≤ ceil_div a b * b ∧ (0 < a → (ceil_div a b - 1) * b < a).
Proof.
  intros Hb. unfold ceil_div.
  pose proof (Nat.div_mod_eq (a + (b - 1)) b) as Hdm.
  pose proof (Nat.mod_upper_bound (a + (b - 1)) b ltac:(lia)) as Hmod.
  split; [nia|]. intros Ha.
  assert (1 ≤ (a + (b - 1)) / b) by (apply Nat.div_le_lower_bound; lia).
  nia.
Qed.

Lemma rowItems_take_drop {A} (l : list A) (n i : nat) :
  rowItems l n i = take n (drop (i * n) l).
Proof.
  unfold rowItems, slice.
  destruct (decide (i * n + n ≤ length l)) as [Hle|Hgt].
  - by replace (min (i * n + n) (length l) - i * n) with n by lia.
  - replace (min (i * n + n) (length l) - i * n) with (length l - i * n)
      by lia.
    rewrite !take_ge; [done| |]; rewrite length_drop; lia.
Qed.

Lemma rows_concat {A} (l : list A) (n k : nat) :
  concat ((rowItems l n) <$> seq 0 k) = take (k * n) l.
Proof.
  induction k as [|k IH]; [done|].
  rewrite seq_S, fmap_app, concat_app, IH. simpl.
  rewrite app_nil_r, rowItems_take_drop, take_take_drop.
  f_equal. lia.
Qed.

(** The rows tile the displayed list: laid one after the other they give
    the list back, every row holds at least one and at most [itemsPerRow]
    items, and only the last row can hold fewer. *)
Theorem rows_tile_displayedItems {A} (displayedItems : list A)
    (itemsPerRow : nat) :
  0 < itemsPerRow →
  concat (rowItems displayedItems itemsPerRow
            <$> seq 0 (rowCount displayedItems itemsPerRow))
  = displayedItems
  ∧ ∀ rowIndex, rowIndex < rowCount displayedItems itemsPerRow →
      1 ≤ length (rowItems displayedItems itemsPerRow rowIndex) ≤ itemsPerRow
      ∧ (rowIndex + 1 < rowCount displayedItems itemsPerRow →
         length (rowItems displayedItems itemsPerRow rowIndex) = itemsPerRow).
Proof.
  intros Hn. unfold rowCount.
  destruct (ceil_div_bounds (length displayedItems) itemsPerRow Hn)
    as [Hup Hlow].
  split.
  - rewrite rows_concat. by apply take_ge.
  - intros i Hi. rewrite rowItems_take_drop, length_take, length_drop.
    assert (0 < length displayedItems) as Hpos.
    { destruct displayedItems; [|simpl; lia].
      unfold ceil_div in Hi. simpl in Hi.
      rewrite Nat.div_small in Hi by lia. lia. }
    specialize (Hlow Hpos). split; [nia|]. intros Hi'. nia.
Qed.

(** The column class handed to the style sheet always names the number of
    items a row holds, which is between one and four and does not decrease
    as the window gets wider. *)
Theorem grid_classes_match_items_per_row (width width' : Z) :
  getGridClasses width
  = lit "grid-cols-" ++ [N.of_nat (48 + getItemsPerRow width)]
  ∧ 1 ≤ getItemsPerRow width ≤ 4
  ∧ ((width ≤ width')%Z → getItemsPerRow width ≤ getItemsPerRow width').
Proof.
  unfold getGridClasses, getItemsPerRow.
  repeat case_match; repeat split; try reflexivity; try lia.
Qed.

(** On a card every tag is accounted for: the badges show the first two
    tags, and the number of the ["+"] badge, present exactly when there are
    more than two, is the number of tags not shown. *)
Theorem card_tags_accounted (item : ClipItem) (t : list jsstring) :
  tags item = Some t →
  shownTags item = take 2 t
  ∧ length (shownTags item) + default 0 (hiddenTags item) = length t
  ∧ (hiddenTags item = None ↔ shownTags item = t).
Proof.
  intros Ht. unfold shownTags, hiddenTags, slice. rewrite Ht.
  change (2 - 0) with 2. rewrite drop_0. split; [done|].
  pose proof (length_take t 2) as Hlt.
  case_bool_decide as Hlen; cbv [default from_option Datatypes.id].
  - split; [lia|]. split; [done|]. intros H%(f_equal length). lia.
  - split; [lia|]. split; [|done]. intros _. apply take_ge. lia.
Qed.

Lemma grid_classes_match_items_per_row_witness :
  (700 ≤ 1280)%Z
  ∧ getGridClasses 700 = lit "grid-cols-2"
  ∧ getItemsPerRow 700 ≤ getItemsPerRow 1280.
Proof.
  assert (700 ≤ 1280)%Z as Hle by lia.
  split; [exact Hle|]. split; [reflexivity|].
  exact (proj2 (proj2 (grid_classes_match_items_per_row 700 1280)) Hle).
Defined.

Lemma rows_tile_displayedItems_witness :
  0 < getItemsPerRow 700
  ∧ concat (rowItems (seq 0 5) (getItemsPerRow 700)
              <$> seq 0 (rowCount (seq 0 5) (getItemsPerRow 700)))
    = seq 0 5
  ∧ rowItems (seq 0 5) (getItemsPerRow 700) <$> seq 0 3
    = [[0; 1]; [2; 3]; [4]].
Proof.
  assert (0 < getItemsPerRow 700) as Hpos by (vm_compute; lia).
  split; [exact Hpos|]. split; [|reflexivity].
  exact (proj1 (rows_tile_displayedItems (seq 0 5) (getItemsPerRow 700) Hpos)).
Defined.

Lemma card_tags_accounted_witness :
  tags tagged_item = Some [lit "a"; lit "b"; lit "c"; lit "d"]
  ∧ shownTags tagged_item = [lit "a"; lit "b"]
  ∧ hiddenTags tagged_item = Some 2
  ∧ length (shownTags tagged_item) + default 0 (hiddenTags tagged_item) = 4.
Proof.
  split; [reflexivity|]. split; [reflexivity|]. split; [reflexivity|].
  exact (proj1 (proj2 (card_tags_accounted tagged_item
                         [lit "a"; lit "b"; lit "c"; lit "d"] eq_refl))).
Defined.

End ClipCardsFacts.

(** ** Code blocks *)
Module ClipContentFacts.
Import JS JSFacts App ClipContent.

Lemma split_nonempty (sep : N) (s : jsstring) : split sep s ≠ [].
Proof.
  destruct s as [|c s]; simpl; [done|].
  destruct (c =? sep)%N; [done|]. by destruct (split sep s).
Qed.

Lemma join_cons (sep s : jsstring) (l : list jsstring) :
  l ≠ [] → join sep (s :: l) = s ++ sep ++ join sep l.
Proof. by destruct l. Qed.

Lemma join_app (sep : jsstring) (l1 l2 : list jsstring) :
  l1 ≠ [] → l2 ≠ [] →
  join sep (l1 ++ l2) = join sep l1 ++ sep ++ join sep l2.
Proof.
  intros H1 H2. induction l1 as [|s l1 IH]; [done|].
  destruct l1 as [|s' l1].
  - change ([s] ++ l2) with (s :: l2). by rewrite join_cons.
  - change ((s :: s' :: l1) ++ l2) with (s :: ((s' :: l1) ++ l2)).
    rewrite (join_cons sep s ((s' :: l1) ++ l2)) by done.
    rewrite (join_cons sep s (s' :: l1)) by done.
    rewrite IH by done. by rewrite <- !app_assoc.
Qed.

(** Joining the parts of a split with the separator gives the string
    back. *)
Lemma join_split (sep : N) (s : jsstring) : join [sep] (split sep s) = s.
Proof.
  induction s as [|c s IH]; [done|]. cbn [split].
  destruct (c =? sep)%N eqn:Hc.
  - apply N.eqb_eq in Hc as ->.
    rewrite join_cons by apply split_nonempty. by rewrite IH.
  - pose proof (split_nonempty sep s) as Hne.
    destruct (split sep s) as [|part parts]; [done|].
    destruct parts as [|part' parts].
    + cbn [join] in *. by rewrite IH.
    + rewrite join_cons in IH by done. rewrite join_cons by done.
      by rewrite <- IH.
Qed.

Lemma split_sep_free (sep : N) (s : jsstring) :
  sep ∉ s → split sep s = [s].
Proof.
  induction s as [|c s IH]; [done|].
  intros [Hc Hs]%not_elem_of_cons. simpl.
  rewrite (proj2 (N.eqb_neq c sep)) by done. by rewrite IH.
Qed.

Lemma split_app_sep (sep : N) (a b : jsstring) :
  sep ∉ a → split sep (a ++ sep :: b) = a :: split sep b.
Proof.
  induction a as [|c a IH]; simpl.
  - intros _. by rewrite N.eqb_refl.
  - intros [Hc Ha]%not_elem_of_cons.
    rewrite (proj2 (N.eqb_neq c sep)) by done. by rewrite IH.
Qed.

Lemma split_parts_sep_free (sep : N) (s : jsstring) :
  Forall (λ part, sep ∉ part) (split sep s).
Proof.
  induction s as [|c s IH]; simpl.
  - constructor; [apply not_elem_of_nil|constructor].
  - destruct (c =? sep)%N eqn:Hc.
    + constructor; [apply not_elem_of_nil|done].
    + apply N.eqb_neq in Hc.
      destruct (split sep s) as [|part parts]; simpl.
      * constructor; [|constructor].
        by intros ->%list_elem_of_singleton.
      * inversion_clear IH as [|? ? Hpart Hparts]. constructor; [|done].
        intros [->|?]%elem_of_cons; done.
Qed.

(** Splitting the join of parts that do not contain the separator gives
    the parts back. *)
Lemma split_join (sep : N) (parts : list jsstring) :
  parts ≠ [] → Forall (λ part, sep ∉ part) parts →
  split sep (join [sep] parts) = parts.
Proof.
  induction parts as [|part parts IH]; [done|]. intros _ Hfree.
  inversion_clear Hfree as [|? ? Hpart Hparts].
  destruct parts as [|part' parts].
  - simpl. by apply split_sep_free.
  - rewrite join_cons by done. cbn [app].
    rewrite split_app_sep by done. by rewrite IH.
Qed.

(** A code block that is not truncated, or has at most three lines, is
    shown as it is. A truncated longer one shows its first three lines
    unchanged, followed by a fourth line ["..."]; what is cut starts at a
    line break of the code. *)
Theorem displayCode_first_three_lines (code : jsstring) (truncate : bool) :
  let lines := split 10 code in
  (truncate = false ∨ length lines ≤ 3 → displayCode code truncate = code)
  ∧ (truncate = true → 3 < length lines →
     split 10 (displayCode code truncate) = take 3 lines ++ [lit "..."]
     ∧ ∃ rest, code = join [10%N] (take 3 lines) ++ [10%N] ++ rest
               ∧ displayCode code truncate
                 = join [10%N] (take 3 lines) ++ [10%N] ++ lit "...").
Proof.
  cbv zeta. unfold displayCode, ClipCards.slice.
  change (3 - 0) with 3. rewrite drop_0.
  set (lines := split 10 code). split.
  - intros [-> | Hlen]; [done|].
    rewrite (bool_decide_eq_false_2 (3 < _)) by lia.
    by rewrite andb_false_r.
  - intros -> Hlen. rewrite bool_decide_eq_true_2 by done. cbn [andb].
    assert (take 3 lines ≠ []) as Htake.
    { intros H%(f_equal length). rewrite length_take in H.
      cbn [length] in H. lia. }
    assert (drop 3 lines ≠ []) as Hdrop.
    { intros H%(f_equal length). rewrite length_drop in H.
      cbn [length] in H. lia. }
    split.
    + replace (join [10%N] (take 3 lines) ++ [10%N] ++ lit "...")
        with (join [10%N] (take 3 lines ++ [lit "..."]))
        by (by rewrite join_app).
      apply split_join.
      * intros H%(f_equal length). rewrite length_app in H.
        cbn [length] in H. lia.
      * apply Forall_app. split.
        -- apply Forall_take, split_parts_sep_free.
        -- constructor; [|constructor]. vm_compute.
           intros H. repeat (inversion H as [|? ? ? H']; clear H;
                             rename H' into H; subst).
    + exists (join [10%N] (drop 3 lines)). split; [|done].
      rewrite <- (join_split 10 code) at 1. fold lines.
      rewrite <- (take_drop 3 lines) at 1.
      by rewrite join_app.
Qed.

Lemma displayCode_first_three_lines_witness :
  3 < length (split 10 (lit "a" ++ [10%N] ++ lit "b" ++ [10%N] ++ lit "c"
                          ++ [10%N] ++ lit "d" ++ [10%N] ++ lit "e"))
  ∧ split 10 (displayCode (lit "a" ++ [10%N] ++ lit "b" ++ [10%N] ++ lit "c"
                             ++ [10%N] ++ lit "d" ++ [10%N] ++ lit "e") true)
    = [lit "a"; lit "b"; lit "c"; lit "..."].
Proof.
  assert (3 < length (split 10 (lit "a" ++ [10%N] ++ lit "b" ++ [10%N]
                                  ++ lit "c" ++ [10%N] ++ lit "d" ++ [10%N]
                                  ++ lit "e"))) as Hlen by (vm_compute; lia).
  split; [exact Hlen|].
  exact (proj1 (proj2 (displayCode_first_three_lines _ true) eq_refl Hlen)).
Defined.

End ClipContentFacts.

(** ** The image viewer *)
Module ImageViewerFacts.
Import JS Async ImageViewer.

(** Membership in a list of literal doubles, by looking. *)
Ltac find_level :=
  repeat first [apply list_elem_of_here | apply list_elem_of_further].

Lemma zoom_levels_closed (z : float) :
  z ∈ zoom_levels → handleZoomIn z ∈ zoom_levels ∧ handleZoomOut z ∈ zoom_levels.
Proof.
  unfold zoom_levels at 1. intros H. rewrite !elem_of_cons in H.
  repeat (destruct H as [-> | H]; [vm_compute; split; find_level|]).
  by apply elem_of_nil in H.
Qed.

Lemma zoom_levels_bounds (z : float) :
  z ∈ zoom_levels → (0.25 <=? z)%float = true ∧ (z <=? 3)%float = true.
Proof.
  unfold zoom_levels. intros H. rewrite !elem_of_cons in H.
  repeat (destruct H as [-> | H]; [by vm_compute|]).
  by apply elem_of_nil in H.
Qed.

Lemma rotation_closed (r : Z) :
  r ∈ [0; 90; 180; 270]%Z → handleRotate r ∈ [0; 90; 180; 270]%Z.
Proof.
  intros H. rewrite !elem_of_cons in H.
  repeat (destruct H as [-> | H]; [vm_compute; find_level|]).
  by apply elem_of_nil in H.
Qed.

(** Whatever buttons are pressed, the zoom factor is one of the twelve
    steps between 0.25 and 3 (the doubles are exact, no rounding error
    accumulates) and the rotation is a quarter turn between 0 and 270. *)
Theorem view_stays_in_range (actions : list ViewAction) :
  let view := foldl act initial_view actions in
  view.1 ∈ zoom_levels
  ∧ (0.25 <=? view.1)%float = true ∧ (view.1 <=? 3)%float = true
  ∧ view.2 ∈ [0; 90; 180; 270]%Z.
Proof.
  cbv zeta.
  assert (∀ view, view.1 ∈ zoom_levels → view.2 ∈ [0; 90; 180; 270]%Z →
            (foldl act view actions).1 ∈ zoom_levels
            ∧ (foldl act view actions).2 ∈ [0; 90; 180; 270]%Z) as Hinv.
  { induction actions as [|a actions IH]; intros view Hz Hr; [done|].
    simpl. apply IH; destruct a; simpl; try done.
    - by apply zoom_levels_closed.
    - by apply zoom_levels_closed.
    - by apply rotation_closed. }
  destruct (Hinv initial_view) as [Hz Hr].
  - unfold zoom_levels. simpl. find_level.
  - simpl. find_level.
  - destruct (zoom_levels_bounds _ Hz). done.
Qed.

(** Below the maximum, zooming in and then out returns to the same factor,
    and above the minimum so does zooming out and then in; at the ends the
    zoom saturates. Four rotations return to the same orientation. *)
Theorem zoom_and_rotate_undo (z : float) (r : Z) :
  z ∈ zoom_levels → r ∈ [0; 90; 180; 270]%Z →
  ((z <? 3)%float = true → handleZoomOut (handleZoomIn z) = z)
  ∧ ((0.25 <? z)%float = true → handleZoomIn (handleZoomOut z) = z)
  ∧ handleZoomIn 3 = 3%float
  ∧ handleZoomOut 0.25 = 0.25%float
  ∧ handleRotate (handleRotate (handleRotate (handleRotate r))) = r.
Proof.
  intros Hz Hr. split; [|split; [|split; [|split]]].
  - unfold zoom_levels in Hz. rewrite !elem_of_cons in Hz.
    repeat (destruct Hz as [-> | Hz]; [by vm_compute|]).
    by apply elem_of_nil in Hz.
  - unfold zoom_levels in Hz. rewrite !elem_of_cons in Hz.
    repeat (destruct Hz as [-> | Hz]; [by vm_compute|]).
    by apply elem_of_nil in Hz.
  - reflexivity.
  - reflexivity.
  - rewrite !elem_of_cons in Hr.
    repeat (destruct Hr as [-> | Hr]; [reflexivity|]).
    by apply elem_of_nil in Hr.
Qed.

Lemma zoom_and_rotate_undo_witness :
  2.75%float ∈ zoom_levels ∧ 270%Z ∈ [0; 90; 180; 270]%Z
  ∧ (2.75 <? 3)%float = true
  ∧ handleZoomOut (handleZoomIn 2.75) = 2.75%float
  ∧ handleRotate 270 = 0%Z.
Proof.
  assert (2.75%float ∈ zoom_levels) as Hz by (unfold zoom_levels; find_level).
  assert (270%Z ∈ [0; 90; 180; 270]%Z) as Hr by find_level.
  split; [exact Hz|]. split; [exact Hr|]. split; [reflexivity|].
  split; [|reflexivity].
  exact (proj1 (zoom_and_rotate_undo 2.75 270 Hz Hr) eq_refl).
Defined.

Section Handlers.
Context (itemId now : jsstring).
Context (dialog : option jsstring + jsstring).
Context (backend : Invocation → unit + jsstring).

(** Saving an image always ends with [isLoading] cleared and never
    throws. If the user dismisses the dialog nothing is invoked and no
    toast is shown; with a path chosen [save_image_to_file] is invoked
    once, followed by the success toast if it resolves; a rejection of the
    dialog or of the command gives the error toast alone. *)
Theorem handleSaveImage_outcome (s : State) :
  let ask := save_dialog (lit "spiegel-image-" ++ now ++ lit ".png") in
  ∃ s', handleSaveImage itemId now dialog backend s = (Returned (), s')
    ∧ isLoading s' = false
    ∧ match dialog with
      | inl (Some (c :: path)) =>
          let write := save_image_to_file itemId (c :: path) in
          invoked s' = invoked s ++ [ask; write]
          ∧ toasts s'
            = toasts s
              ++ [match backend write with
                  | inl _ => successToast (lit "Image saved successfully!")
                  | inr _ => errorToast (lit "Failed to save image")
                  end]
      | inl _ => invoked s' = invoked s ++ [ask] ∧ toasts s' = toasts s
      | inr _ =>
          invoked s' = invoked s ++ [ask]
          ∧ toasts s' = toasts s ++ [errorToast (lit "Failed to save image")]
      end.
Proof.
  cbv zeta. unfold handleSaveImage.
  destruct dialog as [[[|c path]|]|err];
    unfold try_finally, try_catch, mbind, M_bind, settle; simpl.
  - eexists. split; [reflexivity|]. simpl. by rewrite <- ?app_assoc.
  - destruct (backend _) as [[]|err]; simpl;
      eexists; (split; [reflexivity|]); simpl; by rewrite <- ?app_assoc.
  - eexists. split; [reflexivity|]. simpl. by rewrite <- ?app_assoc.
  - eexists. split; [reflexivity|]. simpl. by rewrite <- ?app_assoc.
Qed.

(** Copying an image invokes [copy_image_to_clipboard] once, shows the
    success toast if it resolves and the error toast if it rejects, never
    both, and always ends with [isLoading] cleared. *)
Theorem handleCopyImage_outcome (s : State) :
  ∃ s', handleCopyImage itemId backend s = (Returned (), s')
    ∧ isLoading s' = false
    ∧ invoked s' = invoked s ++ [copy_image_to_clipboard itemId]
    ∧ toasts s'
      = toasts s
        ++ [match backend (copy_image_to_clipboard itemId) with
            | inl _ => successToast (lit "Image copied to clipboard!")
            | inr _ => errorToast (lit "Failed to copy image")
            end].
Proof.
  unfold handleCopyImage, try_finally, try_catch, mbind, M_bind, settle.
  simpl. destruct (backend _) as [[]|err]; simpl;
    eexists; (split; [reflexivity|]); by repeat split.
Qed.

End Handlers.
End ImageViewerFacts.

(** ** Saving the settings *)
Module SettingsFormFacts.
Import JS JSFacts Async SettingsForm.

Section Backend.
Context (backend : Invocation → unit + jsstring).

(** [saveSettings] never throws and always clears [isSaving]. The API key
    is sent only after the hotkey has been accepted: if
    [set_global_hotkey] rejects, [set_setting] is not invoked. The form is
    marked as saved ([hasChanges] cleared) only when both commands
    resolve; otherwise [hasChanges] keeps its value and an error toast is
    shown. *)
Theorem saveSettings_outcome (s : State) :
  let hotkey := set_global_hotkey (globalShortcut s) in
  let key := set_setting (lit "llm_api_key") (llmApiKey s) in
  ∃ s', saveSettings backend s = (Returned (), s')
    ∧ isSaving s' = false
    ∧ globalShortcut s' = globalShortcut s ∧ llmApiKey s' = llmApiKey s
    ∧ match backend hotkey, backend key with
      | inl _, inl _ =>
          invoked s' = invoked s ++ [hotkey; key]
          ∧ hasChanges s' = false ∧ toasts s' = toasts s
      | inl _, inr _ =>
          invoked s' = invoked s ++ [hotkey; key]
          ∧ hasChanges s' = hasChanges s
          ∧ toasts s' = toasts s ++ [lit "Failed to save settings"]
      | inr _, _ =>
          invoked s' = invoked s ++ [hotkey]
          ∧ hasChanges s' = hasChanges s
          ∧ toasts s' = toasts s ++ [lit "Failed to save settings"]
      end.
Proof.
  cbv zeta.
  unfold saveSettings, invoke, try_finally, try_catch, mbind, M_bind,
    settle, modify.
  simpl.
  destruct (backend (set_global_hotkey _)) as [[]|e1]; simpl.
  - destruct (backend (set_setting _ _)) as [[]|e2]; simpl;
      eexists; (split; [reflexivity|]); simpl;
      rewrite <- ?app_assoc; by repeat split.
  - eexists. split; [reflexivity|]. simpl.
    repeat case_match; by repeat split.
Qed.

End Backend.

Section Lower.
Context (toLowerCase : jsstring → jsstring).

Lemma modifier_token_cases (key tok : jsstring) :
  SettingsDialog.modifier_token toLowerCase key = Some tok →
  tok ∈ [lit "CommandOrControl"; lit "Shift"; lit "Alt"].
Proof.
  unfold SettingsDialog.modifier_token. simpl.
  repeat case_bool_decide; intros [= <-]; rewrite !elem_of_cons; tauto.
Qed.

Lemma modifierNames_token (key : jsstring) :
  toLowerCase key ∈ modifierNames →
  is_Some (SettingsDialog.modifier_token toLowerCase key).
Proof.
  unfold modifierNames, SettingsDialog.modifier_token. simpl.
  rewrite !elem_of_cons, !FormatHotkeyFacts.bool_decide_elem_of_cons.
  intros [-> | [-> | [-> | [-> | [-> | [-> | H]]]]]];
    [..|by apply elem_of_nil in H]; vm_compute; eauto.
Qed.

End Lower.

Lemma join_head (sep tok : jsstring) (toks : list jsstring) :
  ∃ rest, join sep (tok :: toks) = tok ++ rest.
Proof.
  destruct toks as [|t toks].
  - exists []. simpl. by rewrite app_nil_r.
  - by exists (sep ++ join sep (t :: toks)).
Qed.

Section Engine.
Context (toLowerCase toUpperCase : jsstring → jsstring).

(** When a capture finishes by itself, the recorded keys hold a modifier,
    so the hotkey that is stored begins with one of the three modifier
    tokens; in particular it is not blank. *)
Theorem finished_capture_starts_with_modifier (isRecording : bool)
    (keys : list jsstring) (s : State) :
  finishes_by_itself toLowerCase isRecording keys = true →
  globalShortcut (finishCapture toLowerCase toUpperCase keys s)
  = SettingsDialog.formatHotkey toLowerCase toUpperCase keys
  ∧ hasChanges (finishCapture toLowerCase toUpperCase keys s) = true
  ∧ ∃ tok rest,
      SettingsDialog.formatHotkey toLowerCase toUpperCase keys = tok ++ rest
      ∧ tok ∈ [lit "CommandOrControl"; lit "Shift"; lit "Alt"].
Proof.
  unfold finishes_by_itself, finishCapture.
  intros [[_ Hlen]%andb_true_iff [Hmod _]%andb_true_iff]%andb_true_iff.
  rewrite Hlen. split; [done|]. split; [done|].
  unfold hasModifier in Hmod. apply existsb_exists in Hmod
    as (key & Hkey & Hname). apply bool_decide_eq_true in Hname.
  destruct (modifierNames_token toLowerCase key Hname) as [t Ht].
  destruct (FormatHotkeyFacts.collect_modifiers toLowerCase toUpperCase keys)
    as [_ Hin].
  assert (t ∈ (SettingsDialog.collect toLowerCase toUpperCase keys).1)
    as Htin.
  { apply Hin. exists key. split; [|done]. by apply list_elem_of_In. }
  unfold SettingsDialog.formatHotkey.
  destruct (SettingsDialog.collect toLowerCase toUpperCase keys).1
    as [|m ms] eqn:Hmods; [by apply elem_of_nil in Htin|].
  simpl. destruct (join_head (lit "+") m
                     (ms ++ (SettingsDialog.collect toLowerCase toUpperCase
                               keys).2)) as [rest Hrest].
  exists m, rest. split; [done|].
  assert (m ∈ m :: ms) as Hm by apply list_elem_of_here.
  apply Hin in Hm as (k & _ & Hk).
  by apply (modifier_token_cases toLowerCase k).
Qed.

End Engine.

(** The test only asks for a key that is not one of its six modifier
    names: recorded keys it takes for regular may be modifiers to
    [formatHotkey], or keys [formatHotkey] drops. *)
Example finished_capture_without_regular_key :
  finishes_by_itself ascii_toLowerCase true [lit "shift"; lit "ctrl"] = true
  ∧ SettingsDialog.formatHotkey ascii_toLowerCase ascii_toUpperCase
      [lit "shift"; lit "ctrl"]
    = lit "Shift+CommandOrControl"
  ∧ finishes_by_itself ascii_toLowerCase true [lit "shift"; lit "f1"] = true
  ∧ SettingsDialog.formatHotkey ascii_toLowerCase ascii_toUpperCase
      [lit "shift"; lit "f1"]
    = lit "Shift".
Proof. repeat split; reflexivity. Qed.

Lemma finished_capture_starts_with_modifier_witness :
  finishes_by_itself ascii_toLowerCase true [lit "meta"; lit "k"] = true
  ∧ ∃ tok rest,
      SettingsDialog.formatHotkey ascii_toLowerCase ascii_toUpperCase
        [lit "meta"; lit "k"] = tok ++ rest
      ∧ tok ∈ [lit "CommandOrControl"; lit "Shift"; lit "Alt"].
Proof.
  split; [reflexivity|].
  exact (proj2 (proj2 (finished_capture_starts_with_modifier
                         ascii_toLowerCase ascii_toUpperCase true
                         [lit "meta"; lit "k"]
                         {| globalShortcut := []; llmApiKey := [];
                            hasChanges := false; isSaving := false;
                            testResult := None; toasts := []; console := [];
                            invoked := [] |} eq_refl))).
Defined.

End SettingsFormFacts.

(** ** Loading the settings *)
Module AppSettingsFacts.
Import JS JSFacts AppSettings.

(** After the settings have loaded, the hotkey field is never empty: it
    holds the stored binding when there is a non-empty one and the default
    otherwise (key missing, [null] or empty). The form is marked unchanged,
    and the missing-key badge is shown exactly when no API key is stored or
    the stored one is white space only. When loading fails the fields are
    left as they were. *)
Theorem loaded_settings (settings : gmap jsstring (option jsstring))
    (s : State) (err : jsstring) :
  let s' := loaded (inl settings) s in
  let stored := read settings (lit "global_hotkey") in
  globalShortcut s' ≠ []
  ∧ (∀ v, stored = Some v → v ≠ [] → globalShortcut s' = v)
  ∧ (stored = None ∨ stored = Some [] →
     globalShortcut s' = lit "CommandOrControl+Shift+C")
  ∧ hasChanges s' = false
  ∧ (hasLlmApiKey s' = false
     ↔ match read settings (lit "llm_api_key") with
       | Some v => forallb isWhiteSpace v = true
       | None => True
       end)
  ∧ globalShortcut (loaded (inr err) s) = globalShortcut s
  ∧ llmApiKey (loaded (inr err) s) = llmApiKey s
  ∧ hasChanges (loaded (inr err) s) = hasChanges s.
Proof.
  cbv zeta. unfold loaded, loadSettings_settled, effect_llmApiKey. simpl.
  split; [|split; [|split; [|split; [|split]]]]; try done.
  - unfold or_default.
    destruct (read settings (lit "global_hotkey")) as [[|c v]|]; done.
  - intros v -> Hv. unfold or_default. by destruct v.
  - intros [-> | ->]; done.
  - rewrite negb_false_iff, bool_decide_eq_true. unfold or_default.
    destruct (read settings (lit "llm_api_key")) as [[|c v]|]; try done.
    simpl truthy. cbv iota. apply trim_nil_iff.
Qed.

(** Storing a binding and loading the settings shows that binding, unless
    it is empty; removing it shows the default. *)
Theorem stored_hotkey_round_trip (settings : gmap jsstring (option jsstring))
    (s : State) (v : jsstring) :
  v ≠ [] →
  globalShortcut
    (loaded (inl (<[lit "global_hotkey" := Some v]> settings)) s) = v
  ∧ globalShortcut (loaded (inl (delete (lit "global_hotkey") settings)) s)
    = lit "CommandOrControl+Shift+C"
  ∧ globalShortcut
      (loaded (inl (<[lit "global_hotkey" := None]> settings)) s)
    = lit "CommandOrControl+Shift+C"
  ∧ llmApiKey
      (loaded (inl (<[lit "global_hotkey" := Some v]> settings)) s)
    = llmApiKey (loaded (inl settings) s).
Proof.
  intros Hv. unfold loaded, loadSettings_settled, effect_llmApiKey, read.
  simpl. rewrite !lookup_insert_eq, lookup_delete_eq. simpl.
  rewrite lookup_insert_ne by (by vm_compute).
  repeat split; try done. by destruct v.
Qed.

Lemma loaded_settings_witness :
  read {[ lit "global_hotkey" := Some (lit "Alt+K") ]} (lit "global_hotkey")
  = Some (lit "Alt+K")
  ∧ globalShortcut
      (loaded (inl {[ lit "global_hotkey" := Some (lit "Alt+K") ]}) initial)
    = lit "Alt+K"
  ∧ hasLlmApiKey
      (loaded (inl {[ lit "global_hotkey" := Some (lit "Alt+K") ]}) initial)
    = false.
Proof.
  assert (read {[ lit "global_hotkey" := Some (lit "Alt+K") ]}
            (lit "global_hotkey") = Some (lit "Alt+K")) as Hread
    by (unfold read; by rewrite lookup_singleton_eq).
  destruct (loaded_settings {[ lit "global_hotkey" := Some (lit "Alt+K") ]}
              initial []) as (_ & Hstored & _ & _ & Hbadge & _).
  split; [exact Hread|]. split.
  - apply Hstored; [exact Hread|discriminate].
  - apply Hbadge. unfold read.
    rewrite lookup_singleton_ne by (by vm_compute). exact I.
Defined.

Lemma stored_hotkey_round_trip_witness :
  lit "Alt+K" ≠ []
  ∧ globalShortcut
      (loaded (inl (<[lit "global_hotkey" := Some (lit "Alt+K")]> ∅)) initial)
    = lit "Alt+K".
Proof.
  split; [discriminate|].
  refine (proj1 (stored_hotkey_round_trip ∅ initial (lit "Alt+K") _)).
  discriminate.
Defined.

End AppSettingsFacts.

(** ** More on the capture-session toolbar *)
Module ToolbarMoreFacts.
Import JS JSFacts Toolbar ToolbarFacts.

Section Engine.
Context (toLowerCase : jsstring → jsstring).

Ltac decided :=
  repeat match goal with
  | H : _ && _ = true |- _ => apply andb_true_iff in H as [? ?]
  | H : negb _ = true |- _ => apply negb_true_iff in H
  | H : bool_decide _ = true |- _ => apply bool_decide_eq_true in H
  | H : bool_decide _ = false |- _ => apply bool_decide_eq_false in H
  end.

(** Only a save request and the answer to a save touch [isSaving] and the
    count of saves in flight. *)
Lemma handle_saving_frame (e : Event) (s : Session) :
  is_save_request e = false → (∀ r, e ≠ save_settled r) →
  isSaving (handle toLowerCase e s) = isSaving s
  ∧ in_flight (handle toLowerCase e s) = in_flight s.
Proof.
  destruct e as [p|v|key shift| | | | | |r]; simpl; try done.
  - intros _ _. unfold on_clip_data, clip_data_listener.
    by repeat case_match.
  - intros Hk _.
    unfold CategoryInput_handleKeyDown, ClipToolbar_handleKeyDown,
      handleInputBlur.
    rewrite Hk. by repeat (case_match; simpl; try done).
  - intros _ _. unfold handleInputBlur. by case_match.
  - intros _ H. by destruct (H r).
Qed.

Lemma step_saving (s s' : Session) (e : Event) :
  step toLowerCase s e = Some s' →
  isSaving s' = isSaving (handle toLowerCase e s)
  ∧ in_flight s' = in_flight (handle toLowerCase e s).
Proof.
  unfold Toolbar.step. case_match; [|done]. intros [= <-].
  by destruct (settle_frame (handle toLowerCase e s)) as (_&->&_&_&->&_).
Qed.

(** As long as saves are requested with the button only, at most one
    [submit_clip] call is in flight, and [isSaving] is set exactly while
    it is. *)
Theorem button_saves_one_at_a_time (es : list Event) (s : Session) :
  Forall (λ e, is_save_request e = true → e = save_click) es →
  run toLowerCase initial es = Some s →
  in_flight s = (if isSaving s then 1 else 0).
Proof.
  assert (in_flight initial = if isSaving initial then 1 else 0) as H0
    by done.
  revert H0. generalize initial. intros s0 H0 Hes. revert s0 H0.
  induction Hes as [|e es He Hes IH]; simpl; intros s0 H0 Hrun.
  - by injection Hrun as <-.
  - destruct (step toLowerCase s0 e) as [s1|] eqn:Hstep; [|done].
    simpl in Hrun. apply (IH s1); [|done].
    destruct (step_saving _ _ _ Hstep) as [-> ->].
    destruct (is_save_request e) eqn:Hreq.
    + rewrite (He eq_refl) in *. unfold Toolbar.step in Hstep.
      simpl in Hstep. unfold save_disabled in Hstep. simpl.
      destruct (isSaving s0); [done|]. cbn in *. lia.
    + destruct e as [p|v|key shift| | | | | |r];
        try (destruct (handle_saving_frame _ s0 Hreq) as [-> ->];
             [by intros|done]).
      unfold Toolbar.step in Hstep. simpl in Hstep.
      case_bool_decide as Hpos; [|done]. simpl.
      destruct (isSaving s0); [|lia]. destruct r; cbn in *; lia.
Qed.

(** The effects of [CategoryInput] settle: after the four commits of
    [settle] a further commit changes nothing, so between two events no
    effect is waiting. In every state the toolbar reaches, the input has
    the focus only while it is rendered, and [isSaving] is set only while
    a save is in flight. *)
Theorem effects_settle (es : list Event) (s s0 : Session) :
  run toLowerCase initial es = Some s →
  commit (settle s0) = settle s0
  ∧ commit s = s
  ∧ (focused s = true → showInput s = true)
  ∧ (isSaving s = true → 0 < in_flight s).
Proof.
  intros Hrun. split; [apply settle_quiescent|].
  assert (commit s = s ∧ (isSaving s = true → 0 < in_flight s)) as [Hc Hs].
  { assert (commit initial = initial
            ∧ (isSaving initial = true → 0 < in_flight initial)) as H0
      by (by split).
    revert Hrun H0. generalize initial. intros i. revert i.
    induction es as [|e es IH]; simpl; intros i Hrun H0.
    - by injection Hrun as <-.
    - destruct (step toLowerCase i e) as [s1|] eqn:Hstep; [|done].
      simpl in Hrun. apply (IH s1); [done|]. split.
      + unfold Toolbar.step in Hstep. case_match; [|done].
        injection Hstep as <-. apply settle_quiescent.
      + destruct (step_saving _ _ _ Hstep) as [-> ->].
        destruct H0 as [_ H0].
        destruct (is_save_request e) eqn:Hreq.
        * pose proof (save_request_invoked toLowerCase i e Hreq) as _.
          destruct e as [p|v|key shift| | | | | |r]; try done.
          -- simpl in Hreq. apply andb_true_iff in Hreq as [Hk Hsh].
             apply bool_decide_eq_true in Hk as ->. simpl.
             unfold CategoryInput_handleKeyDown, ClipToolbar_handleKeyDown.
             simpl. rewrite Hsh. simpl. lia.
          -- simpl. lia.
        * destruct e as [p|v|key shift| | | | | |r];
            try (destruct (handle_saving_frame _ i Hreq) as [-> ->];
                 [by intros|done]).
          simpl. by destruct r. }
  split; [done|]. split; [|done].
  intros Hf. rewrite <- Hc in Hf. revert Hf. unfold Toolbar.commit.
  repeat (case_match; simpl; try done);
    intros [_ ?]%andb_true_iff; done.
Qed.

Lemma commit_prefill (s : Session) (sugg : jsstring) :
  focused s = false → aiSuggestion s = Some sugg → truthy sugg = true →
  userCategory s = sugg → dep_value s = inputValue s →
  inputValue (commit s) = sugg.
Proof.
  intros Hfoc Hai Ht Huc Hdv. unfold Toolbar.commit.
  rewrite Hai, Hfoc, Huc, Hdv, !Ht. cbn. rewrite !andb_false_r.
  destruct (bool_decide (sugg = inputValue s)) eqn:Hsame; cbn.
  - apply bool_decide_eq_true in Hsame. by repeat case_match.
  - by repeat case_match.
Qed.

(** A suggestion that arrives while the input is not focused and shows
    what [userCategory] holds (as it does before the user has touched it)
    fills both the category and the input. *)
Theorem suggestion_prefills_input (s : Session) (payload : ClipContext)
    (sugg : jsstring) :
  reachable toLowerCase s →
  focused s = false → inputValue s = userCategory s →
  suggested_category payload = Some sugg → sugg ≠ [] →
  ∃ s', step toLowerCase s (clip_data payload) = Some s'
        ∧ userCategory s' = sugg ∧ inputValue s' = sugg
        ∧ aiSuggestion s' = Some sugg.
Proof.
  intros Hr Hfoc Hsync Hp Hne.
  destruct (reachable_invariant toLowerCase s Hr) as ((Hdv & _ & _) & _ & _).
  pose proof Hne as Ht%truthy_true.
  exists (settle (on_clip_data payload s)). split; [reflexivity|].
  assert (on_clip_data payload s
          = set_userCategory sugg
              (set_isLoadingClipData false (set_clipData (Some payload) s)))
    as Heq by (unfold on_clip_data, clip_data_listener; by rewrite Hp, Ht).
  rewrite Heq.
  set (t0 := set_userCategory sugg _).
  assert (first_effect_fires t0 = false) as Hf0.
  { unfold first_effect_fires, aiSuggestion. cbn. rewrite Hp, Ht. cbn.
    apply andb_false_r. }
  split; [by rewrite settle_userCategory|].
  assert (inputValue (commit t0) = sugg) as H1.
  { apply commit_prefill;
      [exact Hfoc | unfold aiSuggestion; cbn; exact Hp | exact Ht
      | reflexivity | cbn; by rewrite Hdv, Hsync]. }
  assert (userCategory (commit t0) = sugg) as Hu1
    by (by destruct (commit_without_first_effect t0 Hf0) as [-> _]).
  split.
  - unfold Toolbar.settle.
    pose proof (commit_first_effect t0) as Hf1.
    pose proof (commit_first_effect (commit t0)) as Hf2.
    pose proof (commit_first_effect (commit (commit t0))) as Hf3.
    destruct (commit_deps t0) as (Hd1 & _ & _).
    destruct (commit_deps (commit t0)) as (Hd2 & _ & _).
    destruct (commit_deps (commit (commit t0))) as (Hd3 & _ & _).
    destruct (commit_without_first_effect _ Hf1) as [Hu2 _].
    destruct (commit_without_first_effect _ Hf2) as [Hu3 _].
    rewrite commit_inputValue_stable by (done || congruence).
    rewrite commit_inputValue_stable by (done || congruence).
    rewrite commit_inputValue_stable; [done|done|].
    rewrite Hd1. by rewrite Hu1.
  - rewrite settle_aiSuggestion. unfold aiSuggestion. cbn. exact Hp.
Qed.

Lemma category_trimmed (m : jsstring) :
  m ∈ categories → trim m = m ∧ m ≠ [].
Proof.
  unfold categories. simpl. rewrite !elem_of_cons.
  intros H. repeat (destruct H as [-> | H]; [by vm_compute|]).
  by apply elem_of_nil in H.
Qed.

(** Tab completes what is typed to one of the built-in categories, and a
    save that follows submits exactly that category. *)
Theorem tab_completion_is_a_category (s : Session) (m : jsstring) :
  enabled (input_keydown (lit "Tab") false) s = true →
  inputValue s ≠ [] →
  matchingCategory toLowerCase (inputValue s) = Some m →
  ∃ s', step toLowerCase s (input_keydown (lit "Tab") false) = Some s'
        ∧ userCategory s' = m
        ∧ m ∈ categories
        ∧ submitted_category s' = m.
Proof.
  intros Hen Hiv%truthy_true Hm.
  exists (settle (handle toLowerCase (input_keydown (lit "Tab") false) s)).
  split; [by unfold Toolbar.step; rewrite Hen|].
  assert (m ∈ categories) as Hcat.
  { unfold matchingCategory in Hm. apply find_some in Hm as [Hin _].
    by apply list_elem_of_In. }
  destruct (category_trimmed m Hcat) as [Htrim Hne].
  assert (handle toLowerCase (input_keydown (lit "Tab") false) s
          = set_userCategory m (set_inputValue m s)) as ->.
  { cbn [handle]. unfold CategoryInput_handleKeyDown. rewrite Hiv.
    rewrite bool_decide_eq_true_2 by done. cbn [andb]. by rewrite Hm. }
  assert (userCategory (settle (set_userCategory m (set_inputValue m s)))
          = m) as Hu.
  { rewrite settle_userCategory; [reflexivity|].
    unfold first_effect_fires. case_match; [|done]. cbn.
    apply truthy_true in Hne. rewrite Hne. apply andb_false_r. }
  split; [done|]. split; [done|].
  unfold submitted_category. rewrite Hu, Htrim.
  apply truthy_true in Hne.
  unfold or_opt. rewrite Hne. unfold or_default. by rewrite Hne.
Qed.

End Engine.

Lemma button_saves_one_at_a_time_witness :
  Forall (λ e, is_save_request e = true → e = save_click)
    [clip_data example_payload; save_click; save_settled None; save_click]
  ∧ (λ s, (in_flight s, isSaving s))
      <$> run ascii_toLowerCase initial
            [clip_data example_payload; save_click; save_settled None;
             save_click]
    = Some (1, true).
Proof.
  assert (Forall (λ e, is_save_request e = true → e = save_click)
            [clip_data example_payload; save_click; save_settled None;
             save_click]) as Hes.
  { repeat constructor; done. }
  split; [exact Hes|].
  destruct (run ascii_toLowerCase initial
              [clip_data example_payload; save_click; save_settled None;
               save_click]) as [s|] eqn:Hrun; [|by vm_compute in Hrun].
  pose proof (button_saves_one_at_a_time ascii_toLowerCase _ s Hes Hrun)
    as Hone.
  vm_compute in Hrun. injection Hrun as <-. reflexivity.
Defined.

Lemma effects_settle_witness :
  run ascii_toLowerCase initial
    [clip_data example_payload; badge_click; input_focus;
     input_change (lit "work")] = Some editing
  ∧ commit editing = editing
  ∧ showInput editing = true.
Proof.
  assert (run ascii_toLowerCase initial
            [clip_data example_payload; badge_click; input_focus;
             input_change (lit "work")] = Some editing) as Hrun
    by (vm_compute; reflexivity).
  destruct (effects_settle ascii_toLowerCase _ editing initial Hrun)
    as (_ & Hc & Hf & _).
  split; [exact Hrun|]. split; [exact Hc|]. apply Hf. reflexivity.
Defined.

Lemma suggestion_prefills_input_witness :
  reachable ascii_toLowerCase initial
  ∧ focused initial = false ∧ inputValue initial = userCategory initial
  ∧ suggested_category example_payload = Some (lit "url")
  ∧ ∃ s', step ascii_toLowerCase initial (clip_data example_payload) = Some s'
          ∧ userCategory s' = lit "url" ∧ inputValue s' = lit "url"
          ∧ aiSuggestion s' = Some (lit "url").
Proof.
  assert (reachable ascii_toLowerCase initial) as Hr by (by exists []).
  split; [exact Hr|]. do 3 (split; [reflexivity|]).
  apply (suggestion_prefills_input ascii_toLowerCase initial example_payload
           (lit "url") Hr); [reflexivity..|discriminate].
Defined.

(** The session in which ["Doc"] has been typed over the suggestion. *)
Lemma tab_completion_is_a_category_witness :
  ∃ s, run ascii_toLowerCase initial
         [clip_data example_payload; badge_click; input_focus;
          input_change (lit "Doc")] = Some s
       ∧ matchingCategory ascii_toLowerCase (inputValue s)
         = Some (lit "documentation")
       ∧ ∃ s', step ascii_toLowerCase s (input_keydown (lit "Tab") false)
               = Some s'
               ∧ submitted_category s' = lit "documentation".
Proof.
  eexists. split; [vm_compute; reflexivity|]. split; [reflexivity|].
  edestruct (tab_completion_is_a_category ascii_toLowerCase) as (s' & Hs).
  4: { exists s'. destruct Hs as (Hstep & _ & _ & Hsub).
       split; [exact Hstep|exact Hsub]. }
  - reflexivity.
  - discriminate.
  - reflexivity.
Defined.

End ToolbarMoreFacts.

(** ** Regular expressions and links *)
Module ClipRenderFacts.
Import JS JSFacts App Regex ClipRender.

Lemma test_Never (s : jsstring) : test Never s = false.
Proof. by induction s. Qed.

Lemma test_Empty (s : jsstring) : test Empty s = true ↔ s = [].
Proof. destruct s; simpl; [done|]. by rewrite test_Never. Qed.

Lemma test_Alt (r1 r2 : Regex) (s : jsstring) :
  test (Alt r1 r2) s = test r1 s || test r2 s.
Proof. revert r1 r2. induction s as [|c s IH]; intros r1 r2; simpl; auto. Qed.

Lemma test_Unit (accepts : N → bool) (s : jsstring) :
  test (Unit accepts) s = true ↔ ∃ c, s = [c] ∧ accepts c = true.
Proof.
  destruct s as [|c s]; simpl.
  - split; [done|]. by intros (c & ? & _).
  - destruct (accepts c) eqn:Hc.
    + rewrite test_Empty. split.
      * intros ->. by exists c.
      * by intros (c' & [= -> ->] & _).
    + rewrite test_Never. split; [done|].
      intros (c' & [= -> ->] & ?). congruence.
Qed.

(** A sequence matches exactly the concatenations of a match of its first
    part and a match of its second part. *)
Lemma test_Seq (r1 r2 : Regex) (s : jsstring) :
  test (Seq r1 r2) s = true
  ↔ ∃ s1 s2, s = s1 ++ s2 ∧ test r1 s1 = true ∧ test r2 s2 = true.
Proof.
  revert r1 r2. induction s as [|c s IH]; intros r1 r2.
  - simpl. rewrite andb_true_iff. split.
    + intros [??]. by exists [], [].
    + intros (s1 & s2 & Hs & H1 & H2). symmetry in Hs.
      apply app_eq_nil in Hs as [-> ->]. done.
  - simpl. destruct (nullable r1) eqn:Hn.
    + rewrite test_Alt, orb_true_iff, IH. split.
      * intros [(s1 & s2 & -> & H1 & H2) | H2].
        -- by exists (c :: s1), s2.
        -- by exists [], (c :: s).
      * intros (s1 & s2 & Hs & H1 & H2). destruct s1 as [|c' s1].
        -- right. simpl in Hs. by subst.
        -- left. injection Hs as -> ->. by exists s1, s2.
    + rewrite IH. split.
      * intros (s1 & s2 & -> & H1 & H2). by exists (c :: s1), s2.
      * intros (s1 & s2 & Hs & H1 & H2). destruct s1 as [|c' s1].
        -- simpl in H1. congruence.
        -- injection Hs as -> ->. by exists s1, s2.
Qed.

Lemma test_literal (l s : jsstring) : test (literal l) s = true ↔ s = l.
Proof.
  revert s. induction l as [|c l IH]; intros s.
  - apply test_Empty.
  - change (literal (c :: l)) with (Seq (chr c) (literal l)).
    rewrite test_Seq. split.
    + intros (s1 & s2 & -> & H1 & H2). unfold chr in H1.
      apply test_Unit in H1 as (c' & -> & ->%N.eqb_eq).
      apply IH in H2 as ->. done.
    + intros ->. exists [c], l. split; [done|]. split; [|by apply IH].
      apply test_Unit. exists c. split; [done|]. apply N.eqb_refl.
Qed.

Lemma test_Star_Unit (accepts : N → bool) (s : jsstring) :
  test (Star (Unit accepts)) s = forallb accepts s.
Proof.
  induction s as [|c s IH]; [done|].
  change (test (Star (Unit accepts)) (c :: s))
    with (test (Seq (if accepts c then Empty else Never)
                  (Star (Unit accepts))) s).
  apply eq_true_iff_eq. rewrite test_Seq. simpl.
  destruct (accepts c); simpl.
  - rewrite <- IH. split.
    + intros (s1 & s2 & -> & ->%test_Empty & H2). done.
    + intros H. by exists [], s.
  - split; [|done]. intros (s1 & s2 & _ & H1 & _).
    by rewrite test_Never in H1.
Qed.

Lemma test_plus_Unit (accepts : N → bool) (s : jsstring) :
  test (plus (Unit accepts)) s = true ↔ s ≠ [] ∧ forallb accepts s = true.
Proof.
  unfold plus. rewrite test_Seq. split.
  - intros (s1 & s2 & -> & (c & -> & Hc)%test_Unit & H2).
    rewrite test_Star_Unit in H2. simpl. by rewrite Hc, H2.
  - intros [Hne Hall]. destruct s as [|c s]; [done|]. simpl in Hall.
    apply andb_true_iff in Hall as [Hc Hs]. exists [c], s.
    split; [done|]. split.
    + apply test_Unit. by exists c.
    + by rewrite test_Star_Unit.
Qed.

(** [isUrl] accepts exactly the texts made of ["http://"] or ["https://"]
    followed by at least one code unit, none of them white space (a line
    break included). *)
Theorem isUrl_spec (text : jsstring) :
  isUrl text = true
  ↔ ∃ rest, (text = lit "http://" ++ rest ∨ text = lit "https://" ++ rest)
            ∧ rest ≠ [] ∧ Forall (λ c, isWhiteSpace c = false) rest.
Proof.
  unfold isUrl, url_pattern.
  assert (∀ rest, forallb (λ c, negb (isWhiteSpace c)) rest = true
                  ↔ Forall (λ c, isWhiteSpace c = false) rest) as Hall.
  { intros rest. rewrite forallb_forall, Forall_forall.
    split; intros H c Hc.
    - apply negb_true_iff, H. by apply list_elem_of_In.
    - apply negb_true_iff, H. by apply list_elem_of_In. }
  split.
  - intros (s1 & s' & -> & ->%test_literal
            & (s2 & s'' & -> & Hs & (s3 & rest & -> & ->%test_literal
            & [Hne Hrest]%test_plus_Unit)%test_Seq)%test_Seq)%test_Seq.
    exists rest. rewrite <- Hall. split; [|done].
    unfold opt in Hs. rewrite test_Alt, orb_true_iff in Hs.
    destruct Hs as [(c & -> & ->%N.eqb_eq)%test_Unit | ->%test_Empty].
    + by right.
    + by left.
  - intros (rest & Htext & Hne & Hrest%Hall).
    apply test_Seq. exists (lit "http").
    exists (match text with
            | _ :: _ :: _ :: _ :: t => t
            | _ => []
            end).
    destruct Htext as [-> | ->]; (split; [done|]);
      (split; [by apply test_literal|]); apply test_Seq.
    + exists [], (lit "://" ++ rest). split; [done|]. split; [done|].
      apply test_Seq. exists (lit "://"), rest. split; [done|].
      split; [by apply test_literal|]. by apply test_plus_Unit.
    + exists [115%N], (lit "://" ++ rest). split; [done|]. split; [done|].
      apply test_Seq. exists (lit "://"), rest. split; [done|].
      split; [by apply test_literal|]. by apply test_plus_Unit.
Qed.

(** A clip is rendered as a link only if its text is an http or https URL
    without white space, and the link then points to that very text; a
    clip categorised as a code snippet is never a link. A clip with no
    text, or an empty one, shows its image if it has one. *)
Theorem rendered_link_is_http_url (clip : Clip) (truncate : bool)
    (searchQuery category : option jsstring) (href : jsstring) (h : bool) :
  renderClipContent clip truncate searchQuery category = link href h →
  plain <$> Text clip = Some href
  ∧ category ≠ Some (lit "code_snippet")
  ∧ ∃ rest, (href = lit "http://" ++ rest ∨ href = lit "https://" ++ rest)
            ∧ rest ≠ [] ∧ Forall (λ c, isWhiteSpace c = false) rest.
Proof.
  unfold renderClipContent.
  destruct (plain <$> Text clip) as [[|c t]|]; try by repeat case_match.
  case_bool_decide as Hcat; [done|].
  destruct (isUrl (c :: t)) eqn:Hurl; [|done].
  intros [= <- <-]. split; [done|]. split; [done|]. by apply isUrl_spec.
Qed.

Example isUrl_examples :
  isUrl (lit "https://example.com") = true
  ∧ isUrl (lit "http://a") = true
  ∧ isUrl (lit "https://") = false
  ∧ isUrl (lit "https://example.com/a b") = false
  ∧ isUrl (lit "https://example.com" ++ [10%N]) = false
  ∧ isUrl (lit "see https://example.com") = false
  ∧ isUrl (lit "ftp://example.com") = false
  ∧ isUrl (lit "javascript:alert(1)") = false.
Proof. repeat split; reflexivity. Qed.

Lemma isUrl_spec_witness :
  lit "example.com" ≠ []
  ∧ Forall (λ c, isWhiteSpace c = false) (lit "example.com")
  ∧ isUrl (lit "https://" ++ lit "example.com") = true.
Proof.
  assert (Forall (λ c, isWhiteSpace c = false) (lit "example.com")) as Hall
    by (repeat constructor).
  split; [discriminate|]. split; [exact Hall|].
  apply (proj2 (isUrl_spec (lit "https://" ++ lit "example.com"))).
  exists (lit "example.com"). split; [by right|]. split; [discriminate|].
  exact Hall.
Defined.

Lemma rendered_link_is_http_url_witness :
  renderClipContent
    {| Text := Some {| plain := lit "https://example.com" |}; Image := None |}
    true None (Some (lit "url"))
  = link (lit "https://example.com") false
  ∧ ∃ rest, (lit "https://example.com" = lit "http://" ++ rest
             ∨ lit "https://example.com" = lit "https://" ++ rest)
            ∧ rest ≠ [] ∧ Forall (λ c, isWhiteSpace c = false) rest.
Proof.
  split; [reflexivity|].
  exact (proj2 (proj2 (rendered_link_is_http_url
                         {| Text := Some {| plain := lit "https://example.com" |};
                            Image := None |}
                         true None (Some (lit "url"))
                         (lit "https://example.com") false eq_refl))).
Defined.

End ClipRenderFacts.

(** ** Highlighting the search term *)
Module ClipDialogFacts.
Import JS JSFacts ClipDialog.

Lemma backslash_is_syntax : is_syntax_character 92 = true.
Proof. reflexivity. Qed.

Lemma escape_cons (c : N) (query : jsstring) :
  escape (c :: query)
  = (if is_syntax_character c then [92%N; c] else [c]) ++ escape query.
Proof. done. Qed.

(** Escaping is undone by reading the source back: every syntax character
    of the query is preceded by a backslash, and nothing else is added. *)
Lemma plain_source_escape (query : jsstring) :
  plain_source (escape query) = Some query.
Proof.
  induction query as [|c query IH]; [done|].
  rewrite escape_cons. destruct (is_syntax_character c) eqn:Hc.
  - cbn [app plain_source]. rewrite N.eqb_refl, Hc, IH. done.
  - cbn [app plain_source]. rewrite Hc, IH.
    destruct (c =? 92)%N eqn:H92; [|done].
    apply N.eqb_eq in H92 as ->. by rewrite backslash_is_syntax in Hc.
Qed.

Lemma escape_length (query : jsstring) :
  length query ≤ length (escape query) ≤ 2 * length query.
Proof.
  induction query as [|c query IH]; [simpl; lia|].
  rewrite escape_cons, length_app.
  destruct (is_syntax_character c); simpl; lia.
Qed.

(** [highlightSearchTerm] returns the text untouched exactly when the
    search query is absent or white space only. Otherwise the pattern it
    compiles is the trimmed query in a capture group, with each of its
    syntax characters escaped: read back as a pattern it is the trimmed
    query itself, character by character, so no character the user typed
    acts as an operator. *)
Theorem highlight_source_is_literal (searchQuery : option jsstring) :
  (highlight_source searchQuery = None
   ↔ match searchQuery with
     | Some q => forallb isWhiteSpace q = true
     | None => True
     end)
  ∧ ∀ source, highlight_source searchQuery = Some source →
      ∃ q escaped,
        searchQuery = Some q
        ∧ source = lit "(" ++ escaped ++ lit ")"
        ∧ plain_source escaped = Some (trim q)
        ∧ length (trim q) ≤ length escaped ≤ 2 * length (trim q).
Proof.
  unfold highlight_source. destruct searchQuery as [q|]; [|done].
  destruct (trim q) as [|c t] eqn:Htrim.
  - rewrite andb_false_r. split; [|done].
    split; [|done]. intros _. by apply trim_nil_iff.
  - assert (truthy q = true) as ->.
    { destruct q; [|done]. by vm_compute in Htrim. }
    simpl. split.
    + split; [done|]. intros H%trim_nil_iff. congruence.
    + intros source [= <-]. exists q, (escape (c :: t)).
      rewrite Htrim. split; [done|]. split; [done|].
      split; [apply plain_source_escape|apply escape_length].
Qed.

Example escape_example :
  escape (lit "a.b*(c)") = lit "a\.b\*\(c\)"
  ∧ highlight_source (Some (lit " c++ ")) = Some (lit "(c\+\+)")
  ∧ highlight_source (Some (lit "   ")) = None.
Proof. repeat split; reflexivity. Qed.

Lemma highlight_source_is_literal_witness :
  highlight_source (Some (lit " c++ ")) = Some (lit "(c\+\+)")
  ∧ ∃ q escaped,
      Some (lit " c++ ") = Some q
      ∧ lit "(c\+\+)" = lit "(" ++ escaped ++ lit ")"
      ∧ plain_source escaped = Some (trim q)
      ∧ length (trim q) ≤ length escaped ≤ 2 * length (trim q).
Proof.
  split; [reflexivity|].
  exact (proj2 (highlight_source_is_literal (Some (lit " c++ "))) _ eq_refl).
Defined.

End ClipDialogFacts.
